(** * tsh: a tiny shell with job control (src/tsh.c)

    A shallow embedding of the job table, the command-line tokenizer, the
    bg/fg builtin, the foreground wait and the SIGCHLD handler of tsh.c,
    with the properties of the job-control design stated and proved (or
    refuted) on it.

    Conventions of the embedding.
    - C [int], [pid_t] and [long] values are integers in [Z].  The only
      additions the job table performs are [nextjid++] and
      [maxjid(jobs) + 1]; they are written in [Z] (signed overflow has no
      defined result in C).  The [long] to [int] coercion of [do_bgfg] is
      written out ([int_of_long]).
    - The global array [jobs] is a [list job_t]; a pointer [&jobs[i]] is
      the index [i].  The globals [jobs] and [nextjid] form the record
      [shell].
    - Output ([printf], [fprintf(stderr, ...)]) and [kill] calls are
      recorded as a list of [event]s returned next to the result.
    - The diagnostic macros (LOGINFO, FLOGINFO, ...) and the
      [if (verbose)] report of [addjob] write only when the global
      [verbose] is set and touch neither the table nor any process: the
      embedding is that of the shell run without [-v].
    - Signal masks ([sigprocmask]) do not change what a handler computes
      once it runs and are left out.
    - Signals are an explicit environment: the list of the signals the
      shell catches, each with what its handler finds and, for the loop
      of [waitfg], with the moment at which it is caught ([moment]): in
      [pause()], or after the test of the loop and before [pause()]. *)

From Stdlib Require Import ZArith String Ascii DecimalString DecimalPos.
From stdpp Require Import base numbers list strings.

Open Scope Z_scope.

(** ** Manifest constants *)

Definition MAXJOBS : Z := 16.

Definition UNDEF : Z := 0.
Definition FG : Z := 1.
Definition BG : Z := 2.
Definition ST : Z := 3.

(** [SIGCONT] of <signal.h> (its Linux value; no proof depends on it). *)
Definition SIGCONT : Z := 18.

(** ** Text *)

Definition LF : ascii := "010"%char.
Definition nl : string := String LF "".

(** [%d] of printf. *)
Definition dec (n : Z) : string := NilZero.string_of_int (Z.to_int n).

(** ** Observable effects *)

(** [UnixError msg] is the line [unix_error] prints on stdout: [msg], a
    colon and [strerror(errno)]. *)
Inductive event : Type :=
  | Stdout (text : string)
  | Stderr (text : string)
  | Kill (target sig : Z)
  | UnixError (msg : string).

(** ** The job table *)

Record job_t : Type := Job {
  pid : Z;
  jid : Z;
  state : Z;
  cmdline : string
}.

Global Instance job_t_eq_dec : EqDecision job_t.
Proof. solve_decision. Defined.

(** The globals [jobs] and [nextjid]. *)
Record shell : Type := Shell {
  jobs : list job_t;
  nextjid : Z
}.

Global Instance shell_eq_dec : EqDecision shell.
Proof. solve_decision. Defined.

Definition clearjob (job : job_t) : job_t :=
  {| pid := 0; jid := 0; state := UNDEF; cmdline := "" |}.

Definition initjobs (jobs : list job_t) : list job_t :=
  clearjob <$> jobs.

(** One turn of the loop of [maxjid]. *)
Definition maxjid_step (max : Z) (job : job_t) : Z :=
  if decide (jid job > max) then jid job else max.

Definition maxjid (jobs : list job_t) : Z :=
  foldl maxjid_step 0 jobs.

(** The scans [for (i = 0; i < MAXJOBS; i++) if (jobs[i].pid == p)]:
    the first slot whose pid is [p], with its content. *)
Definition find_pid (p : Z) (jobs : list job_t) : option (nat * job_t) :=
  list_find (λ job, pid job = p) jobs.

Definition find_jid (j : Z) (jobs : list job_t) : option (nat * job_t) :=
  list_find (λ job, jid job = j) jobs.

Definition addjob (s : shell) (p st : Z) (cmd : string)
  : Z * shell * list event :=
  if decide (p < 1) then
    (0, s, [Stderr ("Unable to create job for pid " +:+ dec p)])
  else
    match find_pid 0 (jobs s) with
    | Some (i, _) =>
        let job := {| pid := p; jid := nextjid s; state := st; cmdline := cmd |} in
        let next := nextjid s + 1 in
        (1, {| jobs := <[i := job]> (jobs s);
               nextjid := if decide (next > MAXJOBS) then 1 else next |}, [])
    | None => (0, s, [Stderr ("Tried to create too many jobs" +:+ nl)])
    end.

Definition deletejob (s : shell) (p : Z) : Z * shell :=
  if decide (p < 1) then (0, s)
  else
    match find_pid p (jobs s) with
    | Some (i, job) =>
        let jobs' := <[i := clearjob job]> (jobs s) in
        (1, {| jobs := jobs'; nextjid := maxjid jobs' + 1 |})
    | None => (0, s)
    end.

Definition fgpid (jobs : list job_t) : Z :=
  match list_find (λ job, state job = FG) jobs with
  | Some (_, job) => pid job
  | None => 0
  end.

(** [getjobpid] and [getjobjid] return a pointer into the table or NULL:
    here the slot index, paired with the record found there. *)
Definition getjobpid (jobs : list job_t) (p : Z) : option (nat * job_t) :=
  if decide (p < 1) then None else find_pid p jobs.

Definition getjobjid (jobs : list job_t) (j : Z) : option (nat * job_t) :=
  if decide (j < 1) then None else find_jid j jobs.

Definition pid2jid (s : shell) (p : Z) : Z :=
  if decide (p < 1) then 0
  else match find_pid p (jobs s) with
       | Some (_, job) => jid job
       | None => 0
       end.

(** The table as [main] leaves it before the first command: the static
    array of [MAXJOBS] slots after [initjobs], and [nextjid = 1]. *)
Definition boot : shell :=
  {| jobs := initjobs (replicate (Z.to_nat MAXJOBS) (Job 0 0 0 ""));
     nextjid := 1 |}.

(** ** Sequences of table operations *)

Inductive op : Type :=
  | Add (p st : Z) (cmd : string)
  | Del (p : Z).

Definition step (s : shell) (o : op) : shell :=
  match o with
  | Add p st cmd => (addjob s p st cmd).1.2
  | Del p => (deletejob s p).2
  end.

Definition run (s : shell) (ops : list op) : shell := foldl step s ops.

(** ** The tokenizer *)

Definition MAXLINE : Z := 1024.
Definition MAXARGS : Z := 128.

(** The loops that step [buf] over a run of spaces. *)
Fixpoint skip_spaces (buf : string) : string :=
  match buf with
  | String c rest => if decide (c = " "%char) then skip_spaces rest else buf
  | EmptyString => buf
  end.

(** [delim = strchr(buf, c)] followed by [*delim = '\0']: the text of
    [buf] up to the first [c], and the text after it ([delim + 1]);
    [None] is the NULL of a character that does not occur. *)
Fixpoint strchr (buf : string) (c : ascii) : option (string * string) :=
  match buf with
  | EmptyString => None
  | String a rest =>
      if decide (a = c) then Some (EmptyString, rest)
      else match strchr rest c with
           | Some (arg, tail) => Some (String a arg, tail)
           | None => None
           end
  end.

(** The choice of delimiter: a token that opens with a quote runs to the
    closing quote, any other to the next space. *)
Definition find_delim (buf : string) : option (string * string) :=
  match buf with
  | String c rest =>
      if decide (c = "'"%char) then strchr rest "'"%char
      else strchr buf " "%char
  | EmptyString => strchr buf " "%char
  end.

(** The loop [while (delim) { argv[argc++] = buf; ... }].  Every turn
    consumes the delimiter, so [String.length buf] turns are enough
    (lemma [build_argv_fuel]). *)
Fixpoint build_argv (fuel : nat) (buf : string) : list string :=
  match fuel with
  | O => []
  | S fuel' =>
      match find_delim buf with
      | Some (arg, rest) => arg :: build_argv fuel' (skip_spaces rest)
      | None => []
      end
  end.

(** [buf[strlen(buf) - 1] = ' '] on a non-empty buffer. *)
Fixpoint set_last_space (buf : string) : string :=
  match buf with
  | EmptyString => EmptyString
  | String c EmptyString => String " "%char EmptyString
  | String c rest => String c (set_last_space rest)
  end.

(** [*argv[argc - 1] == '&'] *)
Definition starts_with_amp (arg : string) : bool :=
  match arg with
  | String c _ => bool_decide (c = "&"%char)
  | EmptyString => false
  end.

(** The outcome of [parseline]: the returned int, the value of
    [*argc_dest] afterwards and the arguments stored in [argv] before its
    terminating NULL. *)
Record parsed : Type := Parsed {
  bg_flag : Z;
  argc_out : Z;
  argv_out : list string
}.

(** [parseline cmdline argc_dest]: [argc_dest] is the value [*argc_dest]
    holds at the call.  The result is [None] where the C function writes
    outside an array: on the empty string (the store to
    [buf[strlen(buf) - 1]]), on a line that does not fit the [MAXLINE]
    buffer, and when the arguments and their NULL do not fit the
    [MAXARGS] slots of the caller's [argv]. *)
Definition parseline (cmdline : string) (argc_dest : Z) : option parsed :=
  if decide (cmdline = EmptyString) then None
  else if decide (MAXLINE ≤ Z.of_nat (String.length cmdline)) then None
  else
    let buf := skip_spaces (set_last_space cmdline) in
    let argv := build_argv (String.length buf) buf in
    let argc := Z.of_nat (length argv) in
    if decide (MAXARGS ≤ argc) then None
    else if decide (argc = 0) then
      Some {| bg_flag := 1; argc_out := argc_dest; argv_out := argv |}
    else if starts_with_amp (List.last argv EmptyString) then
      Some {| bg_flag := 1; argc_out := argc - 1; argv_out := removelast argv |}
    else
      Some {| bg_flag := 0; argc_out := argc; argv_out := argv |}.

(** ** Number conversion *)

Definition LONG_MAX : Z := 2 ^ 63 - 1.
Definition LONG_MIN : Z := - 2 ^ 63.

(** [isspace] in the C locale. *)
Definition isspace (c : ascii) : bool :=
  let n := nat_of_ascii c in
  bool_decide (n = 32 ∨ (9 ≤ n ∧ n ≤ 13))%nat.

Definition digit_of (c : ascii) : option Z :=
  let n := Z.of_nat (nat_of_ascii c) in
  if decide (48 ≤ n ∧ n ≤ 57) then Some (n - 48) else None.

Fixpoint skip_isspace (s : string) : string :=
  match s with
  | String c rest => if isspace c then skip_isspace rest else s
  | EmptyString => s
  end.

(** The longest run of decimal digits at the head of [s], accumulated
    onto [acc], and the text after it. *)
Fixpoint digits (acc : Z) (s : string) : Z * string :=
  match s with
  | String c rest =>
      match digit_of c with
      | Some d => digits (10 * acc + d) rest
      | None => (acc, s)
      end
  | EmptyString => (acc, s)
  end.

Definition clamp_long (n : Z) : Z :=
  if decide (n > LONG_MAX) then LONG_MAX
  else if decide (n < LONG_MIN) then LONG_MIN
  else n.

(** [strtol(nptr, &endptr, 10)] of the C library, as the C standard
    describes it, for a 64-bit [long]: white space, an optional sign, a
    run of digits; the value is clamped to the range of [long]; without
    any digit nothing is converted, the value is 0 and [endptr] is
    [nptr].  The result is the value and the text [endptr] points at. *)
Definition strtol (nptr : string) : Z * string :=
  let s := skip_isspace nptr in
  let '(neg, body) :=
    match s with
    | String c rest =>
        if decide (c = "-"%char) then (true, rest)
        else if decide (c = "+"%char) then (false, rest)
        else (false, s)
    | EmptyString => (false, s)
    end in
  match body with
  | String c _ =>
      match digit_of c with
      | Some _ =>
          let '(n, endptr) := digits 0 body in
          (clamp_long (if neg then - n else n), endptr)
      | None => (0, nptr)
      end
  | EmptyString => (0, nptr)
  end.

(** [int id = id_lng]: the low 32 bits, read as a two's complement
    [int]. *)
Definition int_of_long (n : Z) : Z :=
  (n + 2 ^ 31) mod 2 ^ 32 - 2 ^ 31.

(** ** Children, signals and handlers *)

(** The [status] that [waitpid] stores, as the macros of <sys/wait.h>
    read it. *)
Inductive wstatus : Type :=
  | Wexited (code : Z)
  | Wsignaled (sig : Z)
  | Wstopped (sig : Z)
  | Wother.

(** How a handler (or the shell) leaves: it returns, it calls [exit], or
    it dereferences a NULL pointer. *)
Inductive ending : Type :=
  | Return (s : shell)
  | Exit (code : Z)
  | Fault.

Definition with_state (st : Z) (job : job_t) : job_t :=
  {| pid := pid job; jid := jid job; state := st; cmdline := cmdline job |}.

(** [job->state = st] through the pointer [&jobs[i]]. *)
Definition set_state (s : shell) (i : nat) (st : Z) : shell :=
  {| jobs := alter (with_state st) i (jobs s); nextjid := nextjid s |}.

(** The body of the [while] loop of [sigchld_handler] for the child
    [p] that [waitpid] reported with [status]: [inl] is reaching the end
    of the body (the next turn of the loop), [inr] leaving the handler
    from inside it. *)
Definition sigchld_child (s : shell) (p : Z) (status : wstatus)
  : (shell + ending) * list event :=
  match status with
  | Wexited _ => (inr (Return (deletejob s p).2), [])
  | Wsignaled _ => (inr (Return (deletejob s p).2), [])
  | Wstopped sig =>
      match getjobpid (jobs s) p with
      | Some (i, job) =>
          (inr (Return (set_state s i ST)),
           [Stdout ("Job [" +:+ dec (jid job) +:+ "] (" +:+ dec p
                         +:+ ") stopped by signal " +:+ dec sig +:+ nl)])
      | None => (inr Fault, [])
      end
  | Wother =>
      (inr (Exit 1),
       [UnixError "Unhandled SIGCHLD received, unable to continue."])
  end.

(** [sigchld_handler s reapable]: [reapable] lists the children whose
    change of state [waitpid(-1, &status, WNOHANG | WUNTRACED)] can report
    when the handler runs, in the order it reports them; once the list is
    empty [waitpid] returns 0 (or -1) and the loop ends.  The result is
    the way the handler leaves, the children it has not reaped, and its
    output. *)
Fixpoint sigchld_handler (s : shell) (reapable : list (Z * wstatus))
  : ending * list (Z * wstatus) * list event :=
  match reapable with
  | [] => (Return s, [], [])
  | (p, status) :: rest =>
      match sigchld_child s p status with
      | (inl s', out) =>
          let '(e, unreaped, out') := sigchld_handler s' rest in
          (e, unreaped, out ++ out')
      | (inr e, out) => (e, rest, out)
      end
  end.

(** [sigint_handler sig]; [kill_ok] tells whether [kill] succeeds. *)
Definition sigint_handler (s : shell) (sig : Z) (kill_ok : bool)
  : ending * list event :=
  let p := fgpid (jobs s) in
  if decide (p = 0) then
    (Return s, [Stdout ("no foreground job exists" +:+ nl)])
  else if kill_ok then
    match getjobpid (jobs s) p with
    | Some (_, job) =>
        (Return s,
         [Kill (- p) sig;
          Stdout ("Job [" +:+ dec (jid job) +:+ "] (" +:+ dec p
                       +:+ ") terminated by signal " +:+ dec sig +:+ nl)])
    | None => (Fault, [Kill (- p) sig])
    end
  else
    (Return s,
     [Kill (- p) sig;
      Stdout ("Interrupt error: failed to kill " +:+ dec p +:+ nl)]).

Definition sigtstp_handler (s : shell) (sig : Z) (kill_ok : bool)
  : ending * list event :=
  let p := fgpid (jobs s) in
  if decide (p = 0) then
    (Return s, [Stdout ("no foreground job exists" +:+ nl)])
  else if kill_ok then (Return s, [Kill (- p) sig])
  else
    (Return s,
     [Kill (- p) sig;
      Stdout ("Stop error: failed to stop " +:+ dec p +:+ nl)]).

Definition sigquit_handler (s : shell) : ending * list event :=
  (Exit 1,
   [Stdout ("Terminating after receipt of SIGQUIT signal" +:+ nl)]).

(** One signal caught by the shell, with what its handler finds. *)
Inductive delivery : Type :=
  | Sigchld (reapable : list (Z * wstatus))
  | Sigint (sig : Z) (kill_ok : bool)
  | Sigtstp (sig : Z) (kill_ok : bool)
  | Sigquit.

Definition handle (s : shell) (d : delivery) : ending * list event :=
  match d with
  | Sigchld reapable =>
      let '(e, _, out) := sigchld_handler s reapable in (e, out)
  | Sigint sig ok => sigint_handler s sig ok
  | Sigtstp sig ok => sigtstp_handler s sig ok
  | Sigquit => sigquit_handler s
  end.

(** ** Waiting for the foreground job *)

(** No signal is blocked while the shell waits ([waitfg] blocks the empty
    set), so a handler can run at any point of the loop

      while (waiting) { job = getjobpid(jobs, pid);
                        waiting = (job && job->state == FG) ? 1 : 0;
                        if (waiting) pause(); }

    Where it runs matters in one respect only.  [pause()] returns after a
    handler that ran while the shell was suspended in it.  A handler that
    runs after the test has passed and before [pause()] is entered does
    not wake the shell: [pause()] is entered all the same and waits for a
    later signal.  ([InPause] also stands for a handler that runs before
    a test of the loop, be it between the return of [pause()] and the
    next test or before the first test: the test sees the table that
    this handler has left in either case.) *)
Inductive moment : Type :=
  | InPause
  | BeforePause.

(** A signal the shell catches, with the moment at which it is caught
    should the shell be waiting then. *)
Abbreviation arrival := (moment * delivery)%type.

(** How a call made by the main flow ends: it returns (with the signals
    still to come), it stays in [pause()] because no signal comes any
    more, or the shell exits or faults in a handler. *)
Inductive result : Type :=
  | Returned (s : shell) (pending : list arrival)
  | Paused (s : shell)
  | Exited (code : Z)
  | Faulted.

(** [job && job->state == FG] *)
Definition waiting (s : shell) (p : Z) : bool :=
  match getjobpid (jobs s) p with
  | Some (_, job) => bool_decide (state job = FG)
  | None => false
  end.

(** The loop of [waitfg p]; [sigs] are the signals the shell catches from
    now on.  [tested] tells that the test of the current iteration has
    passed already and [pause()] is the next call: the loop is at its
    test otherwise.  Once the test has passed the shell is bound for
    [pause()], whatever a handler does to the table before it gets
    there. *)
Fixpoint waitfg_from (tested : bool) (p : Z) (s : shell) (sigs : list arrival)
  : result * list event :=
  if tested || waiting s p then
    match sigs with
    | [] => (Paused s, [])
    | (m, d) :: rest =>
        match handle s d with
        | (Return s', out) =>
            let tested' := match m with
                           | BeforePause => true
                           | InPause => false
                           end in
            let '(r, out') := waitfg_from tested' p s' rest in (r, out ++ out')
        | (Exit code, out) => (Exited code, out)
        | (Fault, out) => (Faulted, out)
        end
    end
  else (Returned s sigs, []).

Definition waitfg (p : Z) (s : shell) (sigs : list arrival)
  : result * list event :=
  waitfg_from false p s sigs.

(** ** The bg and fg builtins *)

(** The leading [%] of a job id. *)
Definition split_id (arg : string) : bool * string :=
  match arg with
  | String c rest => if decide (c = "%"%char) then (true, rest) else (false, arg)
  | EmptyString => (false, arg)
  end.

Definition lookup_job (jobs : list job_t) (is_jid : bool) (id : Z)
  : option (nat * job_t) :=
  if is_jid then getjobjid jobs id else getjobpid jobs id.

Definition no_such (is_jid : bool) (id : Z) : string :=
  if is_jid then "%" +:+ dec id +:+ ": No such job" +:+ nl
  else "(" +:+ dec id +:+ "): No such process" +:+ nl.

(** [do_bgfg argc argv] with [argc] the number of entries of [argv]
    before its NULL.  An [argv] without [argv[0]] is never passed
    ([builtin_cmd] has compared [argv[0]] with the builtin names). *)
Definition do_bgfg (argv : list string) (s : shell) (sigs : list arrival)
  : result * list event :=
  match argv with
  | [] => (Faulted, [])
  | [cmd; arg] =>
      let '(is_jid, id_str) := split_id arg in
      let '(id_lng, endptr) := strtol id_str in
      if decide (endptr ≠ EmptyString) then
        (Returned s sigs,
         [Stderr (cmd +:+ ": argument must be a PID or %jobid" +:+ nl)])
      else
        let id := int_of_long id_lng in
        match lookup_job (jobs s) is_jid id with
        | None => (Returned s sigs, [Stderr (no_such is_jid id)])
        | Some (i, job) =>
            let cont := Kill (- pid job) SIGCONT in
            if decide (cmd = "bg") then
              (Returned (set_state s i BG) sigs,
               [cont;
                Stdout ("[" +:+ dec (jid job) +:+ "] (" +:+ dec (pid job)
                             +:+ ") " +:+ cmdline job)])
            else
              let '(r, out) := waitfg (pid job) (set_state s i FG) sigs in
              (r, cont :: out)
        end
  | cmd :: _ =>
      (Returned s sigs,
       [Stderr (cmd +:+ " command requires PID or %jobid argument" +:+ nl)])
  end.

(** ** Properties of tables *)

(** No empty slot is left. *)
Definition full (jobs : list job_t) : Prop :=
  Forall (λ job, pid job ≠ 0) jobs.

(** The number of empty slots. *)
Definition free_slots (jobs : list job_t) : nat :=
  length (filter (λ job, pid job = 0) jobs).

(** At most one position of [l] holds an element with the property [P]. *)
Definition at_most_one {A} (P : A → Prop) (l : list A) : Prop :=
  ∀ i j a b, l !! i = Some a → l !! j = Some b → P a → P b → i = j.

(** No two slots hold the same non-zero pid. *)
Definition pids_unique (jobs : list job_t) : Prop :=
  ∀ p, p ≠ 0 → at_most_one (λ job, pid job = p) jobs.

(** No two slots are in the foreground state. *)
Definition one_fg (jobs : list job_t) : Prop :=
  at_most_one (λ job, state job = FG) jobs.

(** At most one slot holds the pid [p]. *)
Definition pid_once (p : Z) (jobs : list job_t) : Prop :=
  at_most_one (λ job, pid job = p) jobs.

Definition has_pid (p : Z) (jobs : list job_t) : Prop :=
  Exists (λ job, pid job = p) jobs.

Definition has_fg (jobs : list job_t) : Prop :=
  Exists (λ job, state job = FG) jobs.

(** [j] is strictly greater than the job id of every job in the table. *)
Definition jid_above (jobs : list job_t) (j : Z) : Prop :=
  Forall (λ job, pid job ≠ 0 → jid job < j) jobs.

(** The counter is ahead of every job id of the table. *)
Definition ahead (s : shell) : Prop := maxjid (jobs s) < nextjid s.

(** The slot [addjob] fills, the first empty slot of [s], read in the
    table [s'] that [addjob] leaves. *)
Definition new_job (s s' : shell) : option job_t :=
  match find_pid 0 (jobs s) with
  | Some (i, _) => jobs s' !! i
  | None => None
  end.

(** ** Properties of runs *)

(** The callers' discipline: an insertion that succeeds is that of a pid
    which no slot holds, and that of a foreground job only when no slot
    is in the foreground. *)
Definition guarded (s : shell) (o : op) : Prop :=
  match o with
  | Add p st cmd =>
      (addjob s p st cmd).1.1 = 1 →
      ¬ has_pid p (jobs s) ∧ (st = FG → ¬ has_fg (jobs s))
  | Del _ => True
  end.

Fixpoint all_guarded (s : shell) (ops : list op) : Prop :=
  match ops with
  | [] => True
  | o :: rest => guarded s o ∧ all_guarded (step s o) rest
  end.

(** The table has an empty slot at every insertion of the run. *)
Fixpoint never_full (s : shell) (ops : list op) : Prop :=
  match ops with
  | [] => True
  | o :: rest =>
      match o with
      | Add _ _ _ => ¬ full (jobs s)
      | Del _ => True
      end ∧ never_full (step s o) rest
  end.

(** [addjob] resets the counter to 1 in this operation. *)
Definition wraps (s : shell) (o : op) : Prop :=
  match o with
  | Add p st cmd => (addjob s p st cmd).1.1 = 1 ∧ nextjid s + 1 > MAXJOBS
  | Del _ => False
  end.

Fixpoint unwrapped (s : shell) (ops : list op) : Prop :=
  match ops with
  | [] => True
  | o :: rest => ¬ wraps s o ∧ unwrapped (step s o) rest
  end.

(** What one operation does to the job ids: a successful add gives the
    new job an id above those of the table, a successful deletion sets
    the counter to the largest remaining id plus one. *)
Definition jid_rule (s : shell) (o : op) : Prop :=
  match o with
  | Add p st cmd =>
      ∀ s' out, addjob s p st cmd = (1, s', out) →
        ∃ job, new_job s s' = Some job ∧ pid job = p ∧
               jid_above (jobs s) (jid job)
  | Del p =>
      ∀ s', deletejob s p = (1, s') → nextjid s' = maxjid (jobs s') + 1
  end.

Fixpoint increasing (s : shell) (ops : list op) : Prop :=
  match ops with
  | [] => True
  | o :: rest => jid_rule s o ∧ increasing (step s o) rest
  end.

Global Instance guarded_dec s o : Decision (guarded s o).
Proof. destruct o; simpl; apply _. Defined.

Global Instance all_guarded_dec s ops : Decision (all_guarded s ops).
Proof. revert s; induction ops as [|o rest IH]; intros s; simpl; apply _. Defined.

Global Instance full_dec jobs : Decision (full jobs).
Proof. apply _. Defined.

Global Instance never_full_dec s ops : Decision (never_full s ops).
Proof.
  revert s; induction ops as [|o rest IH]; intros s; simpl; [apply _|].
  destruct o; apply _.
Defined.

Global Instance wraps_dec s o : Decision (wraps s o).
Proof. destruct o; simpl; apply _. Defined.

Global Instance unwrapped_dec s ops : Decision (unwrapped s ops).
Proof. revert s; induction ops as [|o rest IH]; intros s; simpl; apply _. Defined.

(** ** Properties of waits *)

(** A job with the pid [p] is in the table in the foreground state. *)
Definition in_fg (s : shell) (p : Z) : Prop :=
  Exists (λ job, pid job = p ∧ state job = FG) (jobs s).

(** The table after the handlers of [ds] have run one after the other,
    when each of them returns. *)
Fixpoint handle_all (s : shell) (ds : list delivery) : option shell :=
  match ds with
  | [] => Some s
  | d :: rest =>
      match handle s d with
      | (Return s', _) => handle_all s' rest
      | _ => None
      end
  end.

(** A job with the pid [p] is in the foreground before each signal of
    [ds] is handled. *)
Definition fg_during (p : Z) (s : shell) (ds : list delivery) : Prop :=
  ∀ k t, (k < length ds)%nat → handle_all s (take k ds) = Some t → in_fg t p.

(** ** Scenarios *)

(** The sixteen insertions of the pids 1 to 16 as background jobs. *)
Definition sixteen_adds : list op :=
  (λ n, Add (Z.of_nat n) BG "job") <$> seq 1 16.

(** The scenario of C7: the table that holds only the job with pid 100. *)
Definition only_100 : shell := run boot [Add 100 BG ("sleep 5 &" +:+ nl)].

(** A run under the discipline: two jobs, the first reaped before a
    second foreground job starts. *)
Definition guarded_ops : list op :=
  [Add 100 FG "a"; Add 101 BG "b"; Del 100; Add 102 FG "c"].

(** Fifteen insertions and the deletion of the first job; then a
    sixteenth insertion, which takes the job id 16 and resets the counter
    to 1 while one slot is still empty; then one more insertion. *)
Definition before_wrap : list op :=
  ((λ n, Add (Z.of_nat n) BG "job") <$> seq 1 15) ++ [Del 1].

Definition wrap_prefix : list op := before_wrap ++ [Add 16 BG "job"].

Definition wrap_ops : list op := wrap_prefix ++ [Add 17 BG "job"].

(** The table with the two background jobs 100 and 101. *)
Definition two_jobs : shell := run boot [Add 100 BG "a"; Add 101 BG "b"].

(** The table with the one stopped job 100, of job id 1. *)
Definition one_stopped : shell := run boot [Add 100 ST ("sleep 5" +:+ nl)].

(** The signals of a wait that a keyboard interrupt ends: the interrupt,
    passed on to the child 100, then the SIGCHLD of its termination, both
    caught in [pause()]. *)
Definition reaped_100 : list arrival :=
  [(InPause, Sigint 2 true); (InPause, Sigchld [(100, Wsignaled 2)])].

(** ** Listing the jobs *)

(** The word [listjobs] prints for the state of the slot [i]. *)
Definition state_label (i : nat) (st : Z) : string :=
  if decide (st = BG) then "Running "
  else if decide (st = FG) then "Foreground "
  else if decide (st = ST) then "Stopped "
  else "listjobs: Internal error: job[" +:+ dec (Z.of_nat i)
       +:+ "].state=" +:+ dec st +:+ " ".

(** The three [printf] calls of [listjobs] for a slot that holds a job. *)
Definition list_slot (i : nat) (job : job_t) : list event :=
  if decide (pid job ≠ 0) then
    [Stdout ("[" +:+ dec (jid job) +:+ "] (" +:+ dec (pid job) +:+ ") ");
     Stdout (state_label i (state job));
     Stdout (cmdline job)]
  else [].

(** The loop of [listjobs] from the slot [i] on. *)
Fixpoint listjobs_from (i : nat) (jobs : list job_t) : list event :=
  match jobs with
  | [] => []
  | job :: rest => list_slot i job ++ listjobs_from (S i) rest
  end.

Definition listjobs (jobs : list job_t) : list event := listjobs_from 0 jobs.

(** ** Dispatch and evaluation of a command line *)

(** [builtin_cmd argc argv]: [None] is the return value 0 (not a
    builtin); [Some] is a builtin run to its end, after which
    [builtin_cmd] returns 1 when the builtin returns.  On an [argv]
    without [argv[0]] the first [strcmp] reads through NULL. *)
Definition builtin_cmd (argv : list string) (s : shell) (sigs : list arrival)
  : option (result * list event) :=
  match argv with
  | [] => Some (Faulted, [])
  | cmd :: _ =>
      if decide (cmd = "quit") then Some (Exited 0, [])
      else if decide (cmd = "jobs") then
        Some (Returned s sigs, listjobs (jobs s))
      else if decide (cmd = "bg" ∨ cmd = "fg") then Some (do_bgfg argv s sigs)
      else None
  end.

(** How [eval] ends: in the shell as a [result] says; in the child, with
    the program [argv[0]] in place of the shell after [execv]; or
    undefined, where [parseline] stores outside an array. *)
Inductive evaluated : Type :=
  | Done (r : result)
  | Image (argv : list string)
  | OutOfBounds.

(** [eval cmdline].  [argc] is the value the uninitialised local [argc]
    holds, [fork] the value [fork()] returns in this process (-1 on
    failure, 0 in the child, the pid of the child in the shell) and
    [exec_ok] whether [execv] finds the program.  The calls of
    [sigprocmask] are taken to succeed. *)
Definition eval (cmdline : string) (argc fork : Z) (exec_ok : bool)
    (s : shell) (sigs : list arrival) : evaluated * list event :=
  match parseline cmdline argc with
  | None => (OutOfBounds, [])
  | Some line =>
      match builtin_cmd (argv_out line) s sigs with
      | Some (r, out) => (Done r, out)
      | None =>
          if decide (fork = -1) then
            (Done (Returned s sigs),
             [Stderr ("Unable to fork child process for: " +:+ cmdline)])
          else if decide (fork = 0) then
            match argv_out line with
            | [] => (Done Faulted, [])
            | prog :: _ =>
                if exec_ok then (Image (argv_out line), [])
                else (Done (Exited 1),
                      [Stdout (prog +:+ ": Command not found" +:+ nl)])
            end
          else
            let st := if decide (bg_flag line ≠ 0) then BG else FG in
            let '(added, s', out) := addjob s fork st cmdline in
            if decide (added = 0) then
              (Done (Returned s' sigs),
               out ++ [Stderr ("Failed to create job for " +:+ cmdline)])
            else if decide (bg_flag line ≠ 0) then
              (Done (Returned s' sigs),
               out ++ [Stdout ("[" +:+ dec (pid2jid s' fork) +:+ "] ("
                               +:+ dec fork +:+ ") " +:+ cmdline)])
            else
              let '(r, out') := waitfg fork s' sigs in (Done r, out ++ out')
      end
  end.

(** ** Well-formed tables *)

Definition cleared : job_t := Job 0 0 UNDEF "".

(** A slot is either cleared or holds a job with a pid and a job id of at
    least 1. *)
Definition slot_ok (job : job_t) : Prop :=
  job = cleared ∨ (1 ≤ pid job ∧ 1 ≤ jid job).

(** The table has its [MAXJOBS] slots, each of them is as [slot_ok] says,
    and the counter is at least 1. *)
Definition wf (s : shell) : Prop :=
  length (jobs s) = Z.to_nat MAXJOBS ∧ Forall slot_ok (jobs s)
  ∧ 1 ≤ nextjid s.

(** No two slots hold the same non-zero job id. *)
Definition jids_unique (jobs : list job_t) : Prop :=
  ∀ j, j ≠ 0 → at_most_one (λ job, jid job = j) jobs.

Global Instance slot_ok_dec job : Decision (slot_ok job).
Proof. unfold slot_ok. apply _. Defined.

Global Instance wf_dec s : Decision (wf s).
Proof. unfold wf. apply _. Defined.

(** ** Typed lines *)

(** [c] occurs in [s]. *)
Fixpoint occurs (c : ascii) (s : string) : bool :=
  match s with
  | EmptyString => false
  | String a rest => bool_decide (a = c) || occurs c rest
  end.

(** Every character of [s] passes the test [f]. *)
Fixpoint all_chars (f : ascii → bool) (s : string) : bool :=
  match s with
  | EmptyString => true
  | String a rest => f a && all_chars f rest
  end.

(** [n] spaces. *)
Fixpoint blanks (n : nat) : string :=
  match n with
  | O => EmptyString
  | S n' => String " "%char (blanks n')
  end.

(** [w] begins with a single quote. *)
Definition opens_quote (w : string) : bool :=
  match w with
  | String c _ => bool_decide (c = "'"%char)
  | EmptyString => false
  end.

(** A word as it is typed without quotes: not empty, free of spaces, and
    not opened by a quote. *)
Definition is_word (w : string) : Prop :=
  w ≠ EmptyString ∧ occurs " "%char w = false ∧ opens_quote w = false.

Global Instance is_word_dec w : Decision (is_word w).
Proof. unfold is_word. apply _. Defined.

(** The words, each followed by one space. *)
Fixpoint spaced (ws : list string) : string :=
  match ws with
  | [] => EmptyString
  | w :: rest => w +:+ String " "%char (spaced rest)
  end.

(** The line a user types for the words: one space between two words and
    the newline after the last. *)
Fixpoint typed_line (ws : list string) : string :=
  match ws with
  | [] => nl
  | [w] => w +:+ nl
  | w :: rest => w +:+ String " "%char (typed_line rest)
  end.

Definition is_digit (c : ascii) : bool :=
  match digit_of c with Some _ => true | None => false end.

(** The texts that [strtol] reads to their end as a number: white space,
    an optional sign and at least one digit. *)
Definition numeral (s : string) : Prop :=
  ∃ ws sign ds, s = ws +:+ sign +:+ ds
    ∧ all_chars isspace ws = true
    ∧ (sign = EmptyString ∨ sign = "+" ∨ sign = "-")
    ∧ ds ≠ EmptyString ∧ all_chars is_digit ds = true.

(** ** Signals sent *)

(** The calls of [kill] among the events, as pairs of target and
    signal. *)
Definition kills (out : list event) : list (Z * Z) :=
  omap (λ e, match e with Kill target sig => Some (target, sig) | _ => None end)
       out.

(** * Proofs *)

(** A closed decidable proposition, settled by running its decision
    procedure. *)
Ltac by_evaluation := apply (bool_decide_unpack _); vm_compute; exact I.

(** ** Lists with at most one element of a kind *)

Section at_most_one.
Context {A : Type} (P : A → Prop).

Lemma at_most_one_filter `{∀ x, Decision (P x)} l :
  (length (filter P l) ≤ 1)%nat → at_most_one P l.
Proof.
  induction l as [|x l IH]; intros Hlen i j a b Ha Hb HPa HPb.
  - rewrite lookup_nil in Ha. discriminate.
  - rewrite filter_cons in Hlen.
    assert (Hnone : P x → ∀ k y, l !! k = Some y → ¬ P y).
    { intros HPx k y Hy HPy. destruct (decide (P x)); [|contradiction].
      simpl in Hlen.
      assert (Hin : y ∈ filter P l).
      { apply list_elem_of_filter. split; [exact HPy|].
        eapply list_elem_of_lookup_2; eauto. }
      destruct (filter P l); [apply elem_of_nil in Hin; exact Hin|].
      simpl in Hlen. lia. }
    destruct i as [|i], j as [|j]; simpl in Ha, Hb.
    + reflexivity.
    + injection Ha as ->. exfalso. eapply Hnone; eauto.
    + injection Hb as ->. exfalso. eapply Hnone; eauto.
    + f_equal. apply (IH) with (a := a) (b := b); auto.
      destruct (decide (P x)); simpl in Hlen; lia.
Qed.

(** Overwriting a position with an element of the kind, when the list
    has none. *)
Lemma at_most_one_insert_fresh l i x :
  at_most_one P l → ¬ Exists P l → at_most_one P (<[i := x]> l).
Proof.
  intros Hl Hnone j k a b Ha Hb HPa HPb.
  assert (Hold : ∀ n y, l !! n = Some y → ¬ P y).
  { intros n y Hy HPy. apply Hnone, Exists_exists. exists y.
    split; [eapply list_elem_of_lookup_2; eauto | exact HPy]. }
  apply list_lookup_insert_Some in Ha as [(<- & _ & _)|(_ & Ha)];
    apply list_lookup_insert_Some in Hb as [(<- & _ & _)|(_ & Hb)].
  - reflexivity.
  - exfalso. eapply Hold; eauto.
  - exfalso. eapply Hold; eauto.
  - eapply Hl; eauto.
Qed.

(** Overwriting a position with an element not of the kind. *)
Lemma at_most_one_insert_other l i x :
  at_most_one P l → ¬ P x → at_most_one P (<[i := x]> l).
Proof.
  intros Hl Hx j k a b Ha Hb HPa HPb.
  apply list_lookup_insert_Some in Ha as [(_ & <- & _)|(_ & Ha)];
    [contradiction|].
  apply list_lookup_insert_Some in Hb as [(_ & <- & _)|(_ & Hb)];
    [contradiction|].
  eapply Hl; eauto.
Qed.

(** Changing an element by a function that does not make it of the
    kind. *)
Lemma at_most_one_alter (f : A → A) l i :
  (∀ x, P (f x) → P x) → at_most_one P l → at_most_one P (alter f i l).
Proof.
  intros Hf Hl j k a b Ha Hb HPa HPb.
  assert (Hold : ∀ n y, alter f i l !! n = Some y → P y →
                        ∃ z, l !! n = Some z ∧ P z).
  { intros n y Hy HPy. destruct (decide (i = n)) as [->|Hne].
    - rewrite list_lookup_alter_eq in Hy.
      destruct (l !! n) as [z|]; [|discriminate]. injection Hy as <-.
      exists z. split; [reflexivity | apply Hf; exact HPy].
    - rewrite list_lookup_alter_ne in Hy by exact Hne. eauto. }
  destruct (Hold j a Ha HPa) as (a' & Ha' & HPa').
  destruct (Hold k b Hb HPb) as (b' & Hb' & HPb').
  eapply Hl; eauto.
Qed.
End at_most_one.

(** ** Scans of the table *)

Lemma find_pid_Some p jobs i job :
  find_pid p jobs = Some (i, job) ↔
  jobs !! i = Some job ∧ pid job = p ∧
  ∀ j y, jobs !! j = Some y → (j < i)%nat → pid y ≠ p.
Proof. unfold find_pid. rewrite list_find_Some. reflexivity. Qed.

Lemma find_pid_None p jobs :
  find_pid p jobs = None ↔ Forall (λ job, pid job ≠ p) jobs.
Proof. unfold find_pid. rewrite list_find_None. reflexivity. Qed.

Lemma find_pid_full jobs : find_pid 0 jobs = None ↔ full jobs.
Proof. apply find_pid_None. Qed.

Lemma getjobpid_Some jobs p i job :
  getjobpid jobs p = Some (i, job) ↔ 1 ≤ p ∧ find_pid p jobs = Some (i, job).
Proof.
  unfold getjobpid. destruct (decide (p < 1)); split.
  - discriminate.
  - intros [? _]; lia.
  - intros ->; split; [lia | reflexivity].
  - intros [_ H]; exact H.
Qed.

Lemma getjobpid_lookup jobs p i job :
  getjobpid jobs p = Some (i, job) → jobs !! i = Some job ∧ pid job = p.
Proof.
  intros [_ H]%getjobpid_Some. apply find_pid_Some in H. tauto.
Qed.



(** ** addjob and deletejob, case by case *)

Lemma addjob_success s p st cmd s' out :
  addjob s p st cmd = (1, s', out) ↔
  1 ≤ p ∧ out = [] ∧
  ∃ i e, find_pid 0 (jobs s) = Some (i, e) ∧
    s' = {| jobs := <[i := Job p (nextjid s) st cmd]> (jobs s);
            nextjid := if decide (nextjid s + 1 > MAXJOBS) then 1
                       else nextjid s + 1 |}.
Proof.
  unfold addjob. destruct (decide (p < 1)).
  - split; [discriminate | intros [? _]; lia].
  - destruct (find_pid 0 (jobs s)) as [[i e]|] eqn:E.
    + split.
      * intros [= <- <-]. split; [lia|]. split; [reflexivity|]. eauto.
      * intros (_ & -> & i' & e' & [= <- <-] & ->). reflexivity.
    + split; [discriminate|]. intros (_ & _ & ? & ? & ? & _). discriminate.
Qed.

Lemma addjob_failure s p st cmd s' out :
  addjob s p st cmd = (0, s', out) → s' = s.
Proof.
  unfold addjob. destruct (decide (p < 1)); [congruence|].
  destruct (find_pid 0 (jobs s)) as [[i e]|]; congruence.
Qed.

Lemma addjob_ret s p st cmd :
  (addjob s p st cmd).1.1 = 0 ∨ (addjob s p st cmd).1.1 = 1.
Proof.
  unfold addjob. destruct (decide (p < 1)); [left; reflexivity|].
  destruct (find_pid 0 (jobs s)) as [[i e]|]; [right | left]; reflexivity.
Qed.

Lemma deletejob_success s p s' :
  deletejob s p = (1, s') ↔
  1 ≤ p ∧ ∃ i job, find_pid p (jobs s) = Some (i, job) ∧
    s' = {| jobs := <[i := clearjob job]> (jobs s);
            nextjid := maxjid (<[i := clearjob job]> (jobs s)) + 1 |}.
Proof.
  unfold deletejob. destruct (decide (p < 1)).
  - split; [discriminate | intros [? _]; lia].
  - destruct (find_pid p (jobs s)) as [[i job]|] eqn:E.
    + split.
      * intros [= <-]. split; [lia|]. eauto.
      * intros (_ & i' & job' & [= <- <-] & ->). reflexivity.
    + split; [discriminate|]. intros (_ & ? & ? & ? & _). discriminate.
Qed.

Lemma deletejob_failure s p s' : deletejob s p = (0, s') → s' = s.
Proof.
  unfold deletejob. destruct (decide (p < 1)); [congruence|].
  destruct (find_pid p (jobs s)) as [[i job]|]; congruence.
Qed.

Lemma deletejob_ret s p : (deletejob s p).1 = 0 ∨ (deletejob s p).1 = 1.
Proof.
  unfold deletejob. destruct (decide (p < 1)); [left; reflexivity|].
  destruct (find_pid p (jobs s)) as [[i job]|]; [right | left]; reflexivity.
Qed.

(** ** C6: a failing addjob *)

(** C6.  [addjob] returns 0 and leaves the whole shell state (every
    slot's pid, jid, state and command line, and [nextjid]) as it was,
    with one line on stderr, when the pid is below 1 or when no slot is
    empty; such is the 17th insertion into the table of 16 slots. *)
Theorem addjob_fails (s : shell) (p st : Z) (cmd : string) :
  p < 1 ∨ full (jobs s) →
  addjob s p st cmd
  = (0, s,
     [Stderr (if decide (p < 1) then "Unable to create job for pid " +:+ dec p
              else "Tried to create too many jobs" +:+ nl)]).
Proof.
  intros H. unfold addjob. destruct (decide (p < 1)); [reflexivity|].
  destruct H as [H|H]; [lia|].
  apply find_pid_full in H. rewrite H. reflexivity.
Qed.

Lemma free_slots_insert jobs i e job :
  jobs !! i = Some e → pid e = 0 → pid job ≠ 0 →
  S (free_slots (<[i := job]> jobs)) = free_slots jobs.
Proof.
  intros Hi He Hjob. unfold free_slots.
  rewrite insert_take_drop by (eapply lookup_lt_Some; eassumption).
  rewrite <- (take_drop_middle jobs i e Hi) at 3.
  rewrite !filter_app, !filter_cons.
  destruct (decide (pid job = 0)) as [|_]; [contradiction|].
  destruct (decide (pid e = 0)) as [_|]; [|contradiction].
  rewrite !length_app. simpl. lia.
Qed.

Lemma free_slots_full jobs : free_slots jobs = 0%nat ↔ full jobs.
Proof.
  unfold free_slots, full. induction jobs as [|job rest IH]; simpl.
  - split; [constructor | reflexivity].
  - rewrite filter_cons, Forall_cons. destruct (decide (pid job = 0)); simpl.
    + split; [discriminate | tauto].
    + rewrite IH. tauto.
Qed.

(** An insertion with a valid pid into a table with an empty slot
    succeeds and uses up one empty slot. *)
Lemma addjob_takes_slot s p st cmd :
  1 ≤ p → free_slots (jobs s) ≠ 0%nat →
  ∃ s', addjob s p st cmd = (1, s', []) ∧
        S (free_slots (jobs s')) = free_slots (jobs s).
Proof.
  intros Hp Hfree.
  destruct (find_pid 0 (jobs s)) as [[i e]|] eqn:E.
  - eexists. split.
    + apply addjob_success. split; [exact Hp|]. split; [reflexivity|]. eauto.
    + simpl. apply find_pid_Some in E as (Hi & He & _).
      eapply free_slots_insert; eauto. simpl. lia.
  - apply find_pid_full, free_slots_full in E. contradiction.
Qed.

(** As many insertions with valid pids as there are empty slots fill the
    table: after 16 of them from the initial table no slot is empty. *)
Lemma adds_fill_table s (adds : list op) :
  Forall (λ o, ∃ p st cmd, o = Add p st cmd ∧ 1 ≤ p) adds →
  length adds = free_slots (jobs s) →
  full (jobs (run s adds)).
Proof.
  intros Hadds. revert s.
  induction Hadds as [|o rest (p & st & cmd & -> & Hp) _ IH]; intros s Hlen.
  - simpl in *. apply free_slots_full. congruence.
  - simpl in Hlen. unfold run. simpl.
    destruct (addjob_takes_slot s p st cmd Hp) as (s' & Hadd & Hfree);
      [lia|].
    rewrite Hadd. simpl. apply IH. lia.
Qed.

Lemma free_slots_boot : free_slots (jobs boot) = Z.to_nat MAXJOBS.
Proof. reflexivity. Qed.

Lemma addjob_fails_witness :
  (17 < 1 ∨ full (jobs (run boot sixteen_adds))) ∧
  addjob (run boot sixteen_adds) 17 BG "job"
  = (0, run boot sixteen_adds,
     [Stderr ("Tried to create too many jobs" +:+ nl)]).
Proof.
  assert (H : full (jobs (run boot sixteen_adds))).
  { apply adds_fill_table; [|reflexivity]. unfold sixteen_adds. simpl.
    repeat (constructor; [eexists _, _, _; split; [reflexivity | lia]|]).
    constructor. }
  split; [right; exact H|].
  apply (addjob_fails (run boot sixteen_adds) 17 BG "job"). right. exact H.
Defined.

(** ** The largest job id *)

Lemma foldl_maxjid_step acc jobs :
  let m := foldl maxjid_step acc jobs in
  acc ≤ m ∧ Forall (λ job, jid job ≤ m) jobs ∧
  (m = acc ∨ Exists (λ job, jid job = m) jobs).
Proof.
  revert acc. induction jobs as [|job rest IH]; intros acc; simpl.
  - split; [lia|]. split; [constructor | left; reflexivity].
  - destruct (IH (maxjid_step acc job)) as (Hle & Hall & Hmax).
    assert (Hstep : acc ≤ maxjid_step acc job ∧ jid job ≤ maxjid_step acc job
                    ∧ (maxjid_step acc job = acc
                       ∨ maxjid_step acc job = jid job)).
    { unfold maxjid_step. destruct (decide (jid job > acc)); lia. }
    split; [lia|]. split.
    + constructor; [lia | exact Hall].
    + destruct Hmax as [Hmax|Hmax].
      * destruct Hstep as (_ & _ & [Hs|Hs]).
        -- left. lia.
        -- right. apply Exists_cons_hd. lia.
      * right. apply Exists_cons_tl. exact Hmax.
Qed.

Lemma maxjid_nonneg jobs : 0 ≤ maxjid jobs.
Proof. apply (foldl_maxjid_step 0 jobs). Qed.

Lemma maxjid_upper jobs : Forall (λ job, jid job ≤ maxjid jobs) jobs.
Proof. apply (foldl_maxjid_step 0 jobs). Qed.

Lemma maxjid_least jobs m :
  0 ≤ m → Forall (λ job, jid job ≤ m) jobs → maxjid jobs ≤ m.
Proof.
  intros Hm Hall.
  destruct (foldl_maxjid_step 0 jobs) as (_ & _ & [H|H]);
    fold (maxjid jobs) in H; [lia|].
  apply Exists_exists in H as (job & Hin & Hjid).
  rewrite Forall_forall in Hall. specialize (Hall job Hin). lia.
Qed.

(** ** Deleting a pid that one slot holds *)

(** [deletejob] clears the first slot that holds the pid.  When no other
    slot holds it, the pid is gone from the table, the cleared slot is
    the first empty one unless an earlier slot is empty, and a following
    [addjob] with a valid pid succeeds. *)
Lemma deletejob_frees_once (s : shell) (p : Z) (s' : shell) :
  pid_once p (jobs s) → deletejob s p = (1, s') →
  getjobpid (jobs s') p = None
  ∧ (∃ i job, find_pid p (jobs s) = Some (i, job)
       ∧ jobs s' !! i = Some (Job 0 0 UNDEF "")
       ∧ ∀ q st cmd, 1 ≤ q →
           ∃ s'' k, addjob s' q st cmd = (1, s'', [])
             ∧ (k ≤ i)%nat
             ∧ jobs s'' !! k = Some (Job q (nextjid s') st cmd)
             ∧ (Forall (λ job, pid job ≠ 0) (take i (jobs s')) → k = i))
  ∧ (Forall (λ job, pid job ≠ p → jid job = 0) (jobs s) →
     maxjid (jobs s') = 0).
Proof.
  intros Honce (Hp & i & job & Hfind & ->)%deletejob_success. simpl.
  pose proof Hfind as (Hi & Hjob & _)%find_pid_Some.
  assert (Hlt : (i < length (jobs s))%nat) by (eapply lookup_lt_Some; eauto).
  assert (Hslot : <[i := clearjob job]> (jobs s) !! i = Some (Job 0 0 UNDEF "")).
  { rewrite list_lookup_insert_eq by exact Hlt. reflexivity. }
  split; [|split].
  - unfold getjobpid. destruct (decide (p < 1)); [reflexivity|].
    apply find_pid_None, Forall_lookup. intros j y Hy.
    apply list_lookup_insert_Some in Hy as [(_ & <- & _)|(Hne & Hy)].
    + simpl. lia.
    + intros Hpid. apply Hne. eapply Honce; eauto.
  - exists i, job. split; [exact Hfind|]. split; [exact Hslot|].
    intros q st cmd Hq.
    destruct (find_pid 0 (<[i := clearjob job]> (jobs s))) as [[k e]|] eqn:E.
    + pose proof E as (Hk & He & Hmin)%find_pid_Some.
      eexists _, k. split; [|split; [|split]].
      * apply addjob_success. split; [exact Hq|]. split; [reflexivity|].
        exists k, e. split; [exact E | reflexivity].
      * destruct (decide (k ≤ i)%nat) as [|Hgt]; [assumption|].
        exfalso. apply (Hmin i _ Hslot); [lia | reflexivity].
      * simpl. rewrite list_lookup_insert_eq; [reflexivity|].
        eapply lookup_lt_Some; eauto.
      * intros Hfull. destruct (decide (k = i)) as [|Hne]; [assumption|].
        exfalso. assert (Hki : (k < i)%nat).
        { destruct (decide (k ≤ i)%nat) as [|Hgt]; [lia|].
          exfalso. apply (Hmin i _ Hslot); [lia | reflexivity]. }
        rewrite Forall_lookup in Hfull.
        apply (Hfull k e); [|exact He].
        rewrite lookup_take_lt by exact Hki. exact Hk.
    + exfalso. apply find_pid_None in E. rewrite Forall_lookup in E.
      apply (E i _ Hslot). reflexivity.
  - intros Honly. apply Z.le_antisymm; [|apply maxjid_nonneg].
    apply maxjid_least; [lia|]. apply Forall_lookup. intros j y Hy.
    apply list_lookup_insert_Some in Hy as [(_ & <- & _)|(Hne & Hy)].
    + simpl. lia.
    + rewrite Forall_lookup in Honly. rewrite (Honly j y Hy); [lia|].
      intros Hpid. apply Hne. eapply Honce; eauto.
Qed.

(** ** C2: uniqueness of pids and of the foreground job *)

(** What a deletion does to the table: nothing, or one slot is
    cleared. *)
Lemma step_del s p :
  step s (Del p) = s ∨
  ∃ i job, jobs (step s (Del p)) = <[i := clearjob job]> (jobs s).
Proof.
  simpl. unfold deletejob. destruct (decide (p < 1)); [left; reflexivity|].
  destruct (find_pid p (jobs s)) as [[i job]|]; [|left; reflexivity].
  right. exists i, job. reflexivity.
Qed.

Lemma guarded_step s o :
  pids_unique (jobs s) ∧ one_fg (jobs s) → guarded s o →
  pids_unique (jobs (step s o)) ∧ one_fg (jobs (step s o)).
Proof.
  intros [Hpids Hfg] Hg. destruct o as [p st cmd|p].
  - simpl in *. destruct (addjob s p st cmd) as [[r s'] out] eqn:E.
    simpl in *.
    destruct (addjob_ret s p st cmd) as [Hr|Hr]; rewrite E in Hr;
      simpl in Hr; subst r.
    { apply addjob_failure in E. subst s'. tauto. }
    destruct (Hg eq_refl) as [Hnew Hnofg].
    apply addjob_success in E as (_ & _ & i & e & _ & ->). simpl. split.
    + intros q Hq. destruct (decide (q = p)) as [->|Hne].
      * apply at_most_one_insert_fresh; [apply Hpids; exact Hq | exact Hnew].
      * apply at_most_one_insert_other; [apply Hpids; exact Hq|].
        simpl. congruence.
    + destruct (decide (st = FG)) as [Hst|Hst].
      * apply at_most_one_insert_fresh; [exact Hfg | exact (Hnofg Hst)].
      * apply at_most_one_insert_other; [exact Hfg | exact Hst].
  - destruct (step_del s p) as [->|(i & job & ->)]; [tauto|]. split.
    + intros q Hq. apply at_most_one_insert_other; [apply Hpids; exact Hq|].
      simpl. lia.
    + apply at_most_one_insert_other; [exact Hfg | discriminate].
Qed.

Lemma guarded_run s ops :
  pids_unique (jobs s) ∧ one_fg (jobs s) → all_guarded s ops →
  pids_unique (jobs (run s ops)) ∧ one_fg (jobs (run s ops)).
Proof.
  revert s. induction ops as [|o rest IH]; intros s Hs Hg; [exact Hs|].
  destruct Hg as [Hg Hrest]. apply IH; [|exact Hrest].
  apply guarded_step; assumption.
Qed.

Lemma all_guarded_take s ops k :
  all_guarded s ops → all_guarded s (take k ops).
Proof.
  revert s k. induction ops as [|o rest IH]; intros s k Hg.
  - rewrite take_nil. exact I.
  - destruct k as [|k]; [exact I|]. destruct Hg as [Hg Hrest].
    split; [exact Hg | apply IH; exact Hrest].
Qed.

Lemma boot_invariants : pids_unique (jobs boot) ∧ one_fg (jobs boot).
Proof.
  split.
  - intros p Hp. apply (at_most_one_filter (λ job, pid job = p)).
    assert (Hnone : Forall (λ job, pid job ≠ p) (jobs boot)).
    { assert (Hz : Forall (λ job, pid job = 0) (jobs boot)).
      { by_evaluation. }
      eapply Forall_impl; [exact Hz|]. simpl. intros job Hj. congruence. }
    generalize (jobs boot) Hnone. clear. intros l Hl.
    induction Hl as [|job l Hjob _ IH]; [simpl; lia|].
    rewrite filter_cons. destruct (decide (pid job = p)); [contradiction|].
    exact IH.
  - apply (at_most_one_filter (λ job, state job = FG)). vm_compute. lia.
Qed.

(** C2, as stated, fails: [addjob] does not look for the pid or for a
    foreground job in the table, and two insertions of the pid 100 in
    the foreground state leave two slots with that pid, both in the
    foreground. *)
Lemma addjob_twice_breaks_uniqueness :
  ¬ pids_unique (jobs (run boot [Add 100 FG "a"; Add 100 FG "b"])) ∧
  ¬ one_fg (jobs (run boot [Add 100 FG "a"; Add 100 FG "b"])).
Proof.
  split.
  - intros H.
    specialize (H 100 ltac:(lia) 0%nat 1%nat _ _ eq_refl eq_refl eq_refl eq_refl).
    discriminate.
  - intros H.
    specialize (H 0%nat 1%nat _ _ eq_refl eq_refl eq_refl eq_refl).
    discriminate.
Qed.

(** C2, amended.  In every sequence of [addjob] and [deletejob] from the
    initial table in which each successful insertion is that of a pid
    which no slot holds and, for a foreground job, is made while no slot
    is in the foreground state, the table at no point holds two slots
    with the same non-zero pid nor two slots in the foreground state. *)
Theorem guarded_runs_keep_uniqueness (ops : list op) :
  all_guarded boot ops →
  ∀ k, pids_unique (jobs (run boot (take k ops))) ∧
       one_fg (jobs (run boot (take k ops))).
Proof.
  intros Hg k. apply guarded_run; [exact boot_invariants|].
  apply all_guarded_take. exact Hg.
Qed.

Lemma guarded_runs_keep_uniqueness_witness :
  all_guarded boot guarded_ops ∧
  ∀ k, pids_unique (jobs (run boot (take k guarded_ops))) ∧
       one_fg (jobs (run boot (take k guarded_ops))).
Proof.
  assert (H : all_guarded boot guarded_ops).
  { by_evaluation. }
  split; [exact H | apply (guarded_runs_keep_uniqueness guarded_ops H)].
Defined.

(** ** C7: deleting a job *)

(** C7.  In a job table, where no two slots hold the same non-zero pid,
    for every pid [p] that the table holds: [deletejob s p] succeeds, and
    in the table it leaves [getjobpid] does not find [p]; the slot that
    held [p] is cleared, and a following [addjob] with a valid pid
    succeeds and fills that slot, or an empty slot before it when there
    is one.  When [p] was the only job of the table, as in the scenario
    of the one job with pid 100, [maxjid] is 0 afterwards. *)
Theorem deletejob_frees (s : shell) (p : Z) :
  pids_unique (jobs s) → is_Some (getjobpid (jobs s) p) →
  ∃ s', deletejob s p = (1, s')
  ∧ getjobpid (jobs s') p = None
  ∧ (∃ i job, find_pid p (jobs s) = Some (i, job)
       ∧ jobs s' !! i = Some (Job 0 0 UNDEF "")
       ∧ ∀ q st cmd, 1 ≤ q →
           ∃ s'' k, addjob s' q st cmd = (1, s'', [])
             ∧ (k ≤ i)%nat
             ∧ jobs s'' !! k = Some (Job q (nextjid s') st cmd)
             ∧ (Forall (λ job, pid job ≠ 0) (take i (jobs s')) → k = i))
  ∧ (Forall (λ job, pid job ≠ p → jid job = 0) (jobs s) →
     maxjid (jobs s') = 0).
Proof.
  intros Huniq [[i job] Hget].
  pose proof Hget as [Hp Hfind]%getjobpid_Some.
  assert (Hdel : deletejob s p
                 = (1, {| jobs := <[i := clearjob job]> (jobs s);
                          nextjid := maxjid (<[i := clearjob job]> (jobs s)) + 1 |})).
  { apply deletejob_success. split; [exact Hp|]. exists i, job.
    split; [exact Hfind | reflexivity]. }
  eexists. split; [exact Hdel|].
  apply (deletejob_frees_once s p); [|exact Hdel].
  apply Huniq. lia.
Qed.

Lemma deletejob_frees_witness :
  (pids_unique (jobs only_100) ∧ is_Some (getjobpid (jobs only_100) 100)) ∧
  deletejob only_100 100 = (1, boot) ∧
  getjobpid (jobs boot) 100 = None ∧ maxjid (jobs boot) = 0.
Proof.
  assert (Huniq : pids_unique (jobs only_100)).
  { apply (guarded_run boot [Add 100 BG ("sleep 5 &" +:+ nl)]);
      [exact boot_invariants | by_evaluation]. }
  assert (Hsome : is_Some (getjobpid (jobs only_100) 100))
    by (vm_compute; eexists; reflexivity).
  split; [split; assumption|].
  destruct (deletejob_frees only_100 100 Huniq Hsome)
    as (s' & Hdel & Hget & _ & Hmax).
  assert (Hboot : deletejob only_100 100 = (1, boot)) by (vm_compute; reflexivity).
  rewrite Hboot in Hdel. injection Hdel as <-.
  split; [exact Hboot|]. split; [exact Hget|]. apply Hmax.
  by_evaluation.
Defined.

(** ** C3: the job id given to a new job *)

Lemma increasing_app s ops1 ops2 :
  increasing s (ops1 ++ ops2) ↔
  increasing s ops1 ∧ increasing (run s ops1) ops2.
Proof.
  revert s. induction ops1 as [|o rest IH]; intros s; simpl.
  - tauto.
  - rewrite IH. unfold run. simpl. tauto.
Qed.

(** Whatever the table, a successful deletion leaves the counter at the
    largest remaining job id plus one. *)
Lemma deletejob_recomputes s p s' :
  deletejob s p = (1, s') → nextjid s' = maxjid (jobs s') + 1.
Proof. intros (_ & i & job & _ & ->)%deletejob_success. reflexivity. Qed.

(** While the counter is ahead of the table, the id a new job gets is
    above all the ids of the table. *)
Lemma ahead_jid_rule s o : ahead s → jid_rule s o.
Proof.
  intros Hs. destruct o as [p st cmd|p]; simpl.
  - intros s' out (Hp & _ & i & e & Hfind & ->)%addjob_success.
    exists (Job p (nextjid s) st cmd). split; [|split].
    + unfold new_job. rewrite Hfind. simpl.
      apply find_pid_Some in Hfind as (Hi & _).
      apply list_lookup_insert_eq. eapply lookup_lt_Some; eauto.
    + reflexivity.
    + unfold jid_above. eapply Forall_impl; [apply maxjid_upper|].
      simpl. unfold ahead in Hs. intros job Hjob _. lia.
  - intros s'. apply deletejob_recomputes.
Qed.

Lemma ahead_step s o : ahead s → ¬ wraps s o → ahead (step s o).
Proof.
  intros Hs Hw. destruct o as [p st cmd|p]; simpl in *.
  - destruct (addjob s p st cmd) as [[r s'] out] eqn:E. simpl in *.
    destruct (addjob_ret s p st cmd) as [Hr|Hr]; rewrite E in Hr;
      simpl in Hr; subst r.
    + apply addjob_failure in E. subst s'. exact Hs.
    + apply addjob_success in E as (_ & _ & i & e & _ & ->).
      unfold ahead in *. simpl.
      assert (Hmax : maxjid (<[i := Job p (nextjid s) st cmd]> (jobs s))
                     ≤ nextjid s).
      { apply maxjid_least; [pose proof (maxjid_nonneg (jobs s)); lia|].
        apply Forall_insert; [|simpl; lia].
        eapply Forall_impl; [apply maxjid_upper|]. simpl. intros; lia. }
      destruct (decide (nextjid s + 1 > MAXJOBS)); [|lia].
      exfalso. apply Hw. split; [reflexivity | assumption].
  - destruct (deletejob s p) as [r s'] eqn:E. simpl.
    destruct (deletejob_ret s p) as [Hr|Hr]; rewrite E in Hr;
      simpl in Hr; subst r.
    + apply deletejob_failure in E. subst s'. exact Hs.
    + apply deletejob_recomputes in E. unfold ahead. lia.
Qed.

Lemma ahead_run s ops :
  ahead s → unwrapped s ops → ahead (run s ops) ∧ increasing s ops.
Proof.
  revert s. induction ops as [|o rest IH]; intros s Hs Hu; simpl.
  - split; [exact Hs | exact I].
  - destruct Hu as [Hw Hrest].
    destruct (IH (step s o)) as [Hrun Hinc];
      [apply ahead_step; assumption | exact Hrest |].
    split; [exact Hrun|]. split; [apply ahead_jid_rule; exact Hs | exact Hinc].
Qed.

Lemma ahead_boot : ahead boot.
Proof. unfold ahead. vm_compute. reflexivity. Qed.

(** After a successful deletion the counter is ahead of the table
    again, whatever happened before. *)
Lemma ahead_after_delete s p s' : deletejob s p = (1, s') → ahead s'.
Proof. intros H%deletejob_recomputes. unfold ahead. lia. Qed.

(** C3, as stated, fails: the table is never full at an insertion of
    [wrap_ops], and its last insertion gives the job id 1 to the new job
    while the jobs with the ids 2 to 16 are in the table. *)
Lemma jid_not_increasing_after_wrap :
  never_full boot wrap_ops ∧ ¬ increasing boot wrap_ops.
Proof.
  split.
  - by_evaluation.
  - unfold wrap_ops. intros [_ [H _]]%increasing_app.
    destruct (H (step (run boot wrap_prefix) (Add 17 BG "job")) [])
      as (job & Hnew & _ & Habove); [vm_compute; reflexivity|].
    vm_compute in Hnew. injection Hnew as <-.
    unfold jid_above in Habove. rewrite Forall_lookup in Habove.
    specialize (Habove 1%nat (Job 2 2 BG "job") eq_refl).
    simpl in Habove. lia.
Qed.

(** C3, amended.  In a sequence of [addjob] and [deletejob] that starts
    from the initial table, or from the table that a successful deletion
    leaves, as long as no earlier insertion of the sequence has reset the
    counter [nextjid] to 1 (which [addjob] does when it hands out a job
    id of 16 or more), the job id a successful insertion assigns is
    strictly greater than the job id of every job in the table at that
    moment, and a successful deletion sets the counter to the largest
    remaining job id plus one. *)
Theorem jid_increasing_until_wrap (s0 : shell) (ops : list op) (o : op) :
  s0 = boot ∨ (∃ s p, deletejob s p = (1, s0)) →
  unwrapped s0 ops → increasing s0 (ops ++ [o]).
Proof.
  intros Hstart Hu.
  assert (H0 : ahead s0).
  { destruct Hstart as [->|(s & p & Hdel)];
      [exact ahead_boot | exact (ahead_after_delete s p s0 Hdel)]. }
  destruct (ahead_run s0 ops H0 Hu) as [Hs Hinc].
  apply increasing_app. split; [exact Hinc|].
  split; [apply ahead_jid_rule; exact Hs | exact I].
Qed.

Lemma jid_increasing_until_wrap_witness :
  (boot = boot ∨ (∃ s p, deletejob s p = (1, boot))) ∧
  unwrapped boot before_wrap ∧
  increasing boot (before_wrap ++ [Add 16 BG "job"]).
Proof.
  assert (H : unwrapped boot before_wrap) by by_evaluation.
  split; [left; reflexivity|].
  split; [exact H|].
  apply (jid_increasing_until_wrap boot before_wrap _ (or_introl eq_refl) H).
Defined.

(** ** C4: the tokenizer on a blank line *)

Lemma strchr_shorter buf c arg rest :
  strchr buf c = Some (arg, rest) →
  (String.length rest < String.length buf)%nat.
Proof.
  revert arg. induction buf as [|a buf IH]; intros arg; simpl; [discriminate|].
  destruct (decide (a = c)).
  - intros [= <- <-]. lia.
  - destruct (strchr buf c) as [[arg' rest']|]; [|discriminate].
    intros [= <- <-]. specialize (IH arg' eq_refl). lia.
Qed.

Lemma skip_spaces_shorter buf :
  (String.length (skip_spaces buf) ≤ String.length buf)%nat.
Proof.
  induction buf as [|a buf IH]; simpl; [lia|].
  destruct (decide (a = " "%char)); simpl; lia.
Qed.

Lemma find_delim_shorter buf arg rest :
  find_delim buf = Some (arg, rest) →
  (String.length (skip_spaces rest) < String.length buf)%nat.
Proof.
  intros H. pose proof (skip_spaces_shorter rest).
  destruct buf as [|c buf]; simpl in H; [discriminate|].
  destruct (decide (c = "'"%char)).
  - apply strchr_shorter in H. simpl. lia.
  - change (strchr (String c buf) " "%char = Some (arg, rest)) in H.
    apply strchr_shorter in H. lia.
Qed.

(** The loop of [parseline] ends: the turns allowed by the length of the
    buffer are never used up, more of them change nothing. *)
Lemma build_argv_fuel n m buf :
  (String.length buf ≤ n)%nat → (String.length buf ≤ m)%nat →
  build_argv n buf = build_argv m buf.
Proof.
  revert m buf. induction n as [|n IH]; intros m buf Hn Hm.
  - destruct buf; [|simpl in Hn; lia]. destruct m; reflexivity.
  - destruct m as [|m].
    + destruct buf; [reflexivity | simpl in Hm; lia].
    + simpl. destruct (find_delim buf) as [[arg rest]|] eqn:E; [|reflexivity].
      apply find_delim_shorter in E. f_equal. apply IH; lia.
Qed.

(** On the empty string [parseline] stores before its buffer. *)
Lemma parseline_empty_string argc_dest : parseline EmptyString argc_dest = None.
Proof. reflexivity. Qed.

(** C4, as stated, fails: on the empty line, a lone newline as [fgets]
    delivers it, [parseline] finds no argument and does not return
    false. *)
Lemma parseline_blank_not_foreground :
  ¬ ∃ r, parseline nl 0 = Some r ∧ argv_out r = [] ∧ bg_flag r = 0.
Proof. intros (r & [= <-] & _ & Hbg). discriminate. Qed.

(** C4, amended.  On the empty line [parseline] builds an [argv] without
    arguments and returns 1, the value of a background request, by its
    branch for blank lines; it returns before the store to [*argc_dest],
    which keeps the value it had. *)
Theorem parseline_blank (argc_dest : Z) :
  parseline nl argc_dest
  = Some {| bg_flag := 1; argc_out := argc_dest; argv_out := [] |}.
Proof. reflexivity. Qed.

(** ** C1 and C10: the SIGCHLD handler *)

(** Every path through the body of the loop leaves the handler. *)
Lemma sigchld_child_leaves s p status :
  ∃ e, (sigchld_child s p status).1 = inr e.
Proof.
  destruct status; simpl; eauto.
  destruct (getjobpid (jobs s) p) as [[i job]|]; simpl; eauto.
Qed.

(** An invocation handles the first reapable child and leaves all the
    others unreaped. *)
Lemma sigchld_handler_one s p status rest :
  (sigchld_handler s ((p, status) :: rest)).1.2 = rest.
Proof.
  simpl. destruct (sigchld_child_leaves s p status) as [e He].
  destruct (sigchld_child s p status) as [[s'|e'] out]; simpl in *;
    [discriminate | reflexivity].
Qed.

(** C1 (the code differs).  With the children 100 and 101 both exited
    when the handler runs, one invocation removes the job 100 and
    returns: the child 101 is not reaped and its job stays in the table.
    The same holds of any two children: the handler leaves after the
    first. *)
Theorem sigchld_handler_reaps_first_only :
  (∃ s', sigchld_handler two_jobs [(100, Wexited 0); (101, Wexited 0)]
         = (Return s', [(101, Wexited 0)], [])
         ∧ getjobpid (jobs s') 100 = None
         ∧ is_Some (getjobpid (jobs s') 101))
  ∧ ∀ s c1 c2 rest,
      (sigchld_handler s (c1 :: c2 :: rest)).1.2 = c2 :: rest.
Proof.
  split.
  - eexists. split; [vm_compute; reflexivity|]. split.
    + vm_compute. reflexivity.
    + eexists. vm_compute. reflexivity.
  - intros s [p status] c2 rest. apply sigchld_handler_one.
Qed.

(** C10.  On a stopped child the handler writes through the pointer that
    [getjobpid] returns without testing it.  With a job of that pid in
    the table the handler marks it stopped, prints the notice and
    returns; without one it dereferences NULL.  The stopped-child branch
    is free of the fault exactly when the pid is in the table. *)
Theorem sigchld_stopped_needs_job (s : shell) (p sig : Z)
    (rest : list (Z * wstatus)) :
  (∀ i job, getjobpid (jobs s) p = Some (i, job) →
     sigchld_handler s ((p, Wstopped sig) :: rest)
     = (Return (set_state s i ST), rest,
        [Stdout ("Job [" +:+ dec (jid job) +:+ "] (" +:+ dec p
                      +:+ ") stopped by signal " +:+ dec sig +:+ nl)]))
  ∧ (getjobpid (jobs s) p = None →
     sigchld_handler s ((p, Wstopped sig) :: rest) = (Fault, rest, []))
  ∧ ((sigchld_handler s ((p, Wstopped sig) :: rest)).1.1 ≠ Fault
     ↔ is_Some (getjobpid (jobs s) p)).
Proof.
  simpl. destruct (getjobpid (jobs s) p) as [[i job]|]; simpl.
  - split; [|split].
    + intros i' job' [= <- <-]. reflexivity.
    + discriminate.
    + split; [eauto | discriminate].
  - split; [|split].
    + discriminate.
    + reflexivity.
    + split; [congruence | intros [? ?]; discriminate].
Qed.

Lemma sigchld_stopped_needs_job_witness :
  sigchld_handler one_stopped [(100, Wstopped 20)]
  = (Return (set_state one_stopped 0 ST), [],
     [Stdout ("Job [1] (100) stopped by signal 20" +:+ nl)])
  ∧ sigchld_handler one_stopped [(101, Wstopped 20)] = (Fault, [], []).
Proof.
  destruct (sigchld_stopped_needs_job one_stopped 100 20 []) as (H & _ & _).
  destruct (sigchld_stopped_needs_job one_stopped 101 20 []) as (_ & H' & _).
  split.
  - apply (H 0%nat (Job 100 1 ST ("sleep 5" +:+ nl))). vm_compute. reflexivity.
  - apply H'. vm_compute. reflexivity.
Defined.

(** ** C8 and C9: the argument of bg and fg *)

(** Any number of arguments other than one is answered by the usage
    line, and nothing else happens. *)
Lemma do_bgfg_arity cmd args s sigs :
  length args ≠ 1%nat →
  do_bgfg (cmd :: args) s sigs
  = (Returned s sigs,
     [Stderr (cmd +:+ " command requires PID or %jobid argument" +:+ nl)]).
Proof.
  intros H. destruct args as [|arg [|arg' args]]; simpl in *;
    [reflexivity | lia | reflexivity].
Qed.

(** An argument that [strtol] does not read to its end is answered by the
    error line, and nothing else happens. *)
Lemma do_bgfg_trailing cmd arg s sigs :
  (strtol (split_id arg).2).2 ≠ EmptyString →
  do_bgfg [cmd; arg] s sigs
  = (Returned s sigs,
     [Stderr (cmd +:+ ": argument must be a PID or %jobid" +:+ nl)]).
Proof.
  intros H. unfold do_bgfg.
  destruct (split_id arg) as [is_jid id_str]. simpl in H.
  destruct (strtol id_str) as [id_lng endptr]. simpl in H.
  destruct (decide (endptr ≠ EmptyString)); [reflexivity | contradiction].
Qed.

(** C8 (the code differs).  [do_bgfg] narrows the [long] that [strtol]
    returns to an [int] and never looks at its range.  The id 4294967396
    is 2^32 + 100 and the pid of no job; narrowed, it is 100.  With the
    stopped job of pid 100 in the table, [bg 4294967396] resumes that
    job, a signal is sent and the table changes, where
    [(4294967396): No such process] is due.  Where the narrowed id names
    no job either, the message shows the narrowed number, not the id
    that was given: [fg %4294967303] is answered by [%7: No such job]. *)
Theorem do_bgfg_narrows_id :
  ¬ has_pid 4294967396 (jobs one_stopped)
  ∧ parseline ("bg 4294967396" +:+ nl) 0
    = Some {| bg_flag := 0; argc_out := 2;
              argv_out := ["bg"; "4294967396"] |}
  ∧ do_bgfg ["bg"; "4294967396"] one_stopped []
    = (Returned (set_state one_stopped 0 BG) [],
       [Kill (-100) SIGCONT; Stdout ("[1] (100) sleep 5" +:+ nl)])
  ∧ set_state one_stopped 0 BG ≠ one_stopped
  ∧ do_bgfg ["fg"; "%4294967303"] boot []
    = (Returned boot [], [Stderr ("%7: No such job" +:+ nl)]).
Proof.
  split; [by_evaluation|].
  split; [vm_compute; reflexivity|].
  split; [vm_compute; reflexivity|].
  split; [vm_compute; discriminate|].
  vm_compute. reflexivity.
Qed.

(** C9 (the code differs).  The test of the conversion looks only at the
    character where [strtol] stopped.  An argument without any digit,
    such as [%], passes it as the number 0 and is answered by
    [%0: No such job] where the usage error is due; and white space
    before the digits is skipped, so that the argument [% 1] resumes the
    job 1: a signal is sent and the table changes. *)
Theorem do_bgfg_accepts_malformed_number :
  do_bgfg ["bg"; "%"] boot []
  = (Returned boot [], [Stderr ("%0: No such job" +:+ nl)])
  ∧ do_bgfg ["bg"; ""] boot []
    = (Returned boot [], [Stderr ("(0): No such process" +:+ nl)])
  ∧ do_bgfg ["bg"; "% 1"] one_stopped []
    = (Returned (set_state one_stopped 0 BG) [],
       [Kill (-100) SIGCONT;
        Stdout ("[1] (100) sleep 5" +:+ nl)])
  ∧ set_state one_stopped 0 BG ≠ one_stopped.
Proof.
  split; [vm_compute; reflexivity|].
  split; [vm_compute; reflexivity|].
  split; [vm_compute; reflexivity|].
  vm_compute. discriminate.
Qed.

(** The two malformed arguments as the tokenizer delivers them from a
    typed line. *)
Lemma malformed_arguments_typed :
  parseline ("bg %" +:+ nl) 0
  = Some {| bg_flag := 0; argc_out := 2; argv_out := ["bg"; "%"] |}
  ∧ parseline ("bg '% 1'" +:+ nl) 0
    = Some {| bg_flag := 0; argc_out := 2; argv_out := ["bg"; "% 1"] |}.
Proof. split; vm_compute; reflexivity. Qed.

(** ** C5: resuming a job *)

(** Writing the state of a slot does not move the pids. *)
Lemma find_pid_set_state p l i st k job :
  find_pid p l = Some (k, job) →
  find_pid p (alter (with_state st) i l)
  = Some (k, if decide (i = k) then with_state st job else job).
Proof.
  intros (Hk & Hp & Hmin)%find_pid_Some. apply find_pid_Some.
  split; [|split].
  - destruct (decide (i = k)) as [->|Hne].
    + rewrite list_lookup_alter_eq, Hk. reflexivity.
    + rewrite list_lookup_alter_ne by exact Hne. exact Hk.
  - destruct (decide (i = k)); simpl; exact Hp.
  - intros j y Hy Hj. destruct (decide (i = j)) as [->|Hne].
    + rewrite list_lookup_alter_eq in Hy.
      destruct (l !! j) as [z|] eqn:Hz; [|discriminate].
      injection Hy as <-. simpl. eapply Hmin; eauto.
    + rewrite list_lookup_alter_ne in Hy by exact Hne. eapply Hmin; eauto.
Qed.


(** *** The test of [waitfg] and the foreground job

    [waitfg] goes on waiting only while a job of that pid is in the
    foreground; in a table where the pid is in one slot only, it goes on
    exactly as long as that job is there and in the foreground.  No
    handler adds a job, so the pid stays in one slot all through the
    wait. *)

Lemma waiting_in_fg s p : waiting s p = true → in_fg s p.
Proof.
  unfold waiting. destruct (getjobpid (jobs s) p) as [[k job]|] eqn:E;
    [|discriminate].
  intros Hfg%bool_decide_eq_true. apply getjobpid_lookup in E as [Hk Hp].
  apply Exists_exists. exists job. split; [|tauto].
  eapply list_elem_of_lookup_2; eauto.
Qed.

Lemma not_waiting_not_in_fg s p :
  1 ≤ p → pid_once p (jobs s) → waiting s p = false → ¬ in_fg s p.
Proof.
  intros Hp Honce Hw (job & Hin & Hpid & Hfg)%Exists_exists.
  apply list_elem_of_lookup in Hin as [k Hk].
  unfold waiting, getjobpid in Hw. destruct (decide (p < 1)); [lia|].
  destruct (find_pid p (jobs s)) as [[k' job']|] eqn:E.
  - apply find_pid_Some in E as (Hk' & Hpid' & _).
    assert (k = k') by (eapply Honce; eauto). subst k'.
    rewrite Hk in Hk'. injection Hk' as <-.
    apply bool_decide_eq_false in Hw. contradiction.
  - apply find_pid_None in E. rewrite Forall_lookup in E.
    apply (E k job Hk). exact Hpid.
Qed.

Lemma pid_once_set_state p s i st :
  pid_once p (jobs s) → pid_once p (jobs (set_state s i st)).
Proof. apply at_most_one_alter. intros job H. exact H. Qed.

Lemma pid_once_deletejob p s q :
  p ≠ 0 → pid_once p (jobs s) → pid_once p (jobs (deletejob s q).2).
Proof.
  intros Hp Hs. destruct (step_del s q) as [H|(i & job & H)];
    simpl in H; rewrite H; [exact Hs|].
  apply at_most_one_insert_other; [exact Hs | simpl; congruence].
Qed.

Lemma pid_once_handle p s d s' out :
  p ≠ 0 → pid_once p (jobs s) → handle s d = (Return s', out) →
  pid_once p (jobs s').
Proof.
  intros Hp Hs. destruct d as [reapable|sig ok|sig ok|]; simpl.
  - destruct reapable as [|[q status] rest]; simpl.
    + intros [= <- _]. exact Hs.
    + destruct (sigchld_child_leaves s q status) as [e He].
      destruct (sigchld_child s q status) as [[t|e'] out'] eqn:E;
        simpl in He; [discriminate|]. injection He as ->.
      intros [= -> _]. destruct status; simpl in E.
      * injection E as <- _. apply pid_once_deletejob; assumption.
      * injection E as <- _. apply pid_once_deletejob; assumption.
      * destruct (getjobpid (jobs s) q) as [[i job]|]; [|discriminate].
        injection E as <- _. apply pid_once_set_state. exact Hs.
      * discriminate.
  - unfold sigint_handler. destruct (decide (fgpid (jobs s) = 0)).
    + intros [= <- _]. exact Hs.
    + destruct ok.
      * destruct (getjobpid (jobs s) (fgpid (jobs s))) as [[i job]|];
          [|discriminate]. intros [= <- _]. exact Hs.
      * intros [= <- _]. exact Hs.
  - unfold sigtstp_handler. destruct (decide (fgpid (jobs s) = 0)).
    + intros [= <- _]. exact Hs.
    + destruct ok; intros [= <- _]; exact Hs.
  - discriminate.
Qed.

Lemma pid_once_handle_all p ds :
  p ≠ 0 → ∀ s s', pid_once p (jobs s) → handle_all s ds = Some s' →
  pid_once p (jobs s').
Proof.
  intros Hp. induction ds as [|d rest IH]; intros s s' Hs; simpl.
  - intros [= <-]. exact Hs.
  - destruct (handle s d) as [[t|code|] out] eqn:E; [|discriminate..].
    apply IH. eapply pid_once_handle; eauto.
Qed.

(** *** Every job can be named

    The decimal text of a pid or of a job id, as [printf] writes it, is
    read back by [strtol] as that number: a job that [getjobpid] finds
    by its pid is resolved by the argument [<pid>], and one that
    [getjobjid] finds by its job id by the argument [%<jid>]. *)

Lemma digits_cons acc c k s :
  digit_of c = Some k → digits acc (String c s) = digits (10 * acc + k) s.
Proof. intros H. simpl. rewrite H. reflexivity. Qed.

Lemma digits_of_uint_acc d acc :
  digits (Z.pos acc) (NilEmpty.string_of_uint d)
  = (Z.pos (Pos.of_uint_acc d acc), EmptyString).
Proof.
  revert acc. induction d; intros acc; [reflexivity|..];
    cbn [NilEmpty.string_of_uint Pos.of_uint_acc];
    erewrite digits_cons by (vm_compute; reflexivity);
    match goal with
    | |- digits ?x _ = (Z.pos (Pos.of_uint_acc _ ?a), _) =>
        replace x with (Z.pos a) by lia
    end; apply IHd.
Qed.

Lemma digits_of_uint d :
  digits 0 (NilEmpty.string_of_uint d) = (Z.of_N (Pos.of_uint d), EmptyString).
Proof.
  induction d; [reflexivity|..];
    cbn [NilEmpty.string_of_uint Pos.of_uint];
    erewrite digits_cons by (vm_compute; reflexivity);
    [exact IHd | apply (digits_of_uint_acc d)..].
Qed.

Lemma string_of_uint_head d :
  d ≠ Decimal.Nil →
  ∃ c rest, NilEmpty.string_of_uint d = String c rest ∧
    is_Some (digit_of c) ∧ isspace c = false ∧
    c ≠ "-"%char ∧ c ≠ "+"%char ∧ c ≠ "%"%char.
Proof.
  intros Hd. destruct d; [contradiction|..]; simpl; eexists _, _;
    (split; [reflexivity|]); (split; [eexists; reflexivity|]);
    (split; [reflexivity|]); repeat split; discriminate.
Qed.

Lemma dec_pos p : dec (Z.pos p) = NilEmpty.string_of_uint (Pos.to_uint p).
Proof.
  unfold dec. simpl. pose proof (Unsigned.to_uint_nonnil p) as H.
  destruct (Pos.to_uint p); [contradiction|..]; reflexivity.
Qed.

Lemma strtol_dec n : 1 ≤ n ≤ LONG_MAX → strtol (dec n) = (n, EmptyString).
Proof.
  intros Hn. destruct n as [|p|p]; [lia| |lia]. rewrite dec_pos.
  destruct (string_of_uint_head (Pos.to_uint p) (Unsigned.to_uint_nonnil p))
    as (c & rest & Hs & [k Hk] & Hsp & Hm & Hpl & _).
  pose proof (digits_of_uint (Pos.to_uint p)) as Hdig.
  rewrite Unsigned.of_to in Hdig. rewrite Hs in *.
  unfold strtol. cbn [skip_isspace]. rewrite Hsp.
  destruct (decide (c = "-"%char)); [contradiction|].
  destruct (decide (c = "+"%char)); [contradiction|].
  rewrite Hk, Hdig. cbn [Z.of_N]. unfold clamp_long.
  destruct (decide (Z.pos p > LONG_MAX)); [lia|].
  destruct (decide (Z.pos p < LONG_MIN)); [unfold LONG_MIN in *; lia|].
  reflexivity.
Qed.

Lemma split_id_dec n : 1 ≤ n → split_id (dec n) = (false, dec n).
Proof.
  intros Hn. destruct n as [|p|p]; [lia| |lia]. rewrite dec_pos.
  destruct (string_of_uint_head (Pos.to_uint p) (Unsigned.to_uint_nonnil p))
    as (c & rest & Hs & _ & _ & _ & _ & Hpc).
  rewrite Hs. simpl. destruct (decide (c = "%"%char)); [contradiction|].
  reflexivity.
Qed.

Lemma int_of_long_small n : - 2 ^ 31 ≤ n < 2 ^ 31 → int_of_long n = n.
Proof. intros H. unfold int_of_long. rewrite Z.mod_small; lia. Qed.



(** C5 (the code differs).  [waitfg] tests the job and then calls
    [pause()] with no signal blocked.  With the stopped job 100 in the
    table, [fg %1] sends SIGCONT, sets the job to the FG state and
    waits.  When the SIGCHLD of the exit of the child 100 is caught
    after the test and before [pause()], its handler deletes the job and
    the shell enters [pause()] all the same: with no later signal it
    stays there, although the job is no longer in the table, where the
    comment of [waitfg] has it block until the process is no longer the
    foreground process.  The same signal caught in [pause()] ends the
    wait, and [bg] does not wait at all. *)
Theorem do_bgfg_fg_misses_wakeup :
  do_bgfg ["fg"; "%1"] one_stopped [(BeforePause, Sigchld [(100, Wexited 0)])]
  = (Paused boot, [Kill (-100) SIGCONT])
  ∧ ¬ has_pid 100 (jobs boot)
  ∧ do_bgfg ["fg"; "%1"] one_stopped [(InPause, Sigchld [(100, Wexited 0)])]
    = (Returned boot [], [Kill (-100) SIGCONT])
  ∧ do_bgfg ["bg"; "%1"] one_stopped [(BeforePause, Sigchld [(100, Wexited 0)])]
    = (Returned (set_state one_stopped 0 BG)
         [(BeforePause, Sigchld [(100, Wexited 0)])],
       [Kill (-100) SIGCONT; Stdout ("[1] (100) sleep 5" +:+ nl)]).
Proof.
  split; [vm_compute; reflexivity|].
  split; [by_evaluation|].
  split; vm_compute; reflexivity.
Qed.

(** * Further properties of the code *)

(** ** The table stays well formed *)

Lemma wf_boot : wf boot.
Proof. by_evaluation. Qed.

Lemma wf_step s o : wf s → wf (step s o).
Proof.
  intros (Hlen & Hall & Hnext). destruct o as [p st cmd|p]; simpl.
  - destruct (addjob s p st cmd) as [[r s'] out] eqn:E. simpl.
    destruct (addjob_ret s p st cmd) as [Hr|Hr]; rewrite E in Hr;
      simpl in Hr; subst r.
    + apply addjob_failure in E. subst s'. repeat split; assumption.
    + apply addjob_success in E as (Hp & _ & i & e & _ & ->).
      split; [|split]; simpl.
      * rewrite length_insert. exact Hlen.
      * apply Forall_insert; [exact Hall|]. right. simpl. lia.
      * destruct (decide (nextjid s + 1 > MAXJOBS)); lia.
  - destruct (deletejob s p) as [r s'] eqn:E. simpl.
    destruct (deletejob_ret s p) as [Hr|Hr]; rewrite E in Hr;
      simpl in Hr; subst r.
    + apply deletejob_failure in E. subst s'. repeat split; assumption.
    + apply deletejob_success in E as (Hp & i & job & _ & ->).
      split; [|split]; simpl.
      * rewrite length_insert. exact Hlen.
      * apply Forall_insert; [exact Hall|]. left. reflexivity.
      * pose proof (maxjid_nonneg (<[i := clearjob job]> (jobs s))). lia.
Qed.

Lemma wf_run s ops : wf s → wf (run s ops).
Proof.
  revert s. induction ops as [|o rest IH]; intros s Hs; [exact Hs|].
  apply IH, wf_step, Hs.
Qed.


(** ** Insertion, lookup and deletion *)

Lemma find_pid_insert_new p l i job :
  (i < length l)%nat → pid job = p → ¬ has_pid p l →
  find_pid p (<[i := job]> l) = Some (i, job).
Proof.
  intros Hi Hp Hnone. apply find_pid_Some. split; [|split].
  - apply list_lookup_insert_eq. exact Hi.
  - exact Hp.
  - intros j y Hy Hj Hpy. rewrite list_lookup_insert_ne in Hy by lia.
    apply Hnone, Exists_exists. exists y.
    split; [eapply list_elem_of_lookup_2; eauto | exact Hpy].
Qed.

Lemma find_pid_insert_other q l i e x :
  l !! i = Some e → pid e ≠ q → pid x ≠ q →
  find_pid q (<[i := x]> l) = find_pid q l.
Proof.
  intros Hi He Hx. destruct (find_pid q l) as [[k job]|] eqn:E.
  - apply find_pid_Some in E as (Hk & Hq & Hmin).
    assert (Hne : i ≠ k) by (intros ->; rewrite Hi in Hk; congruence).
    apply find_pid_Some. split; [|split].
    + rewrite list_lookup_insert_ne by exact Hne. exact Hk.
    + exact Hq.
    + intros j y Hy Hj.
      apply list_lookup_insert_Some in Hy as [(_ & <- & _)|(_ & Hy)];
        [exact Hx | eapply Hmin; eauto].
  - apply find_pid_None in E. apply find_pid_None.
    apply Forall_insert; assumption.
Qed.

Lemma getjobpid_insert_other q l i e x :
  l !! i = Some e → (1 ≤ q → pid e ≠ q) → (1 ≤ q → pid x ≠ q) →
  getjobpid (<[i := x]> l) q = getjobpid l q.
Proof.
  intros Hi He Hx. unfold getjobpid. destruct (decide (q < 1)); [reflexivity|].
  eapply find_pid_insert_other; [exact Hi | apply He; lia | apply Hx; lia].
Qed.

(** X2.  A job inserted under a pid that no slot holds is found by that
    pid: [getjobpid] returns the first slot that was empty, holding the
    pid, the job id that [nextjid] had, the state and the command line
    given, and [pid2jid] returns that job id. *)
Theorem addjob_then_lookup (s : shell) (p st : Z) (cmd : string)
    (s' : shell) (out : list event) :
  addjob s p st cmd = (1, s', out) → ¬ has_pid p (jobs s) →
  ∃ i e, find_pid 0 (jobs s) = Some (i, e)
    ∧ getjobpid (jobs s') p = Some (i, Job p (nextjid s) st cmd)
    ∧ pid2jid s' p = nextjid s.
Proof.
  intros (Hp & _ & i & e & Hfree & ->)%addjob_success Hnone.
  pose proof Hfree as (Hi & _)%find_pid_Some. apply lookup_lt_Some in Hi.
  assert (Hfind : find_pid p (<[i := Job p (nextjid s) st cmd]> (jobs s))
                  = Some (i, Job p (nextjid s) st cmd))
    by (apply find_pid_insert_new; [exact Hi | reflexivity | exact Hnone]).
  exists i, e. split; [exact Hfree|]. split.
  - apply getjobpid_Some. split; [exact Hp | exact Hfind].
  - unfold pid2jid. simpl. destruct (decide (p < 1)); [lia|].
    rewrite Hfind. reflexivity.
Qed.

Lemma addjob_then_lookup_witness :
  (addjob only_100 7 FG "vi" = (1, run only_100 [Add 7 FG "vi"], [])
   ∧ ¬ has_pid 7 (jobs only_100))
  ∧ ∃ i e, find_pid 0 (jobs only_100) = Some (i, e)
      ∧ getjobpid (jobs (run only_100 [Add 7 FG "vi"])) 7
        = Some (i, Job 7 (nextjid only_100) FG "vi")
      ∧ pid2jid (run only_100 [Add 7 FG "vi"]) 7 = nextjid only_100.
Proof.
  assert (H1 : addjob only_100 7 FG "vi"
               = (1, run only_100 [Add 7 FG "vi"], []))
    by (vm_compute; reflexivity).
  assert (H2 : ¬ has_pid 7 (jobs only_100)) by by_evaluation.
  split; [split; assumption|].
  exact (addjob_then_lookup only_100 7 FG "vi" _ [] H1 H2).
Defined.



(** X4.  A successful [deletejob] clears one slot, the first that holds
    the pid: every other slot is as before, the table keeps its length,
    the lookup of any other pid gives what it gave before, and one more
    slot is empty. *)
Theorem deletejob_keeps_other_jobs (s : shell) (p : Z) (s' : shell) :
  deletejob s p = (1, s') →
  length (jobs s') = length (jobs s)
  ∧ (∃ i job, find_pid p (jobs s) = Some (i, job)
       ∧ jobs s' !! i = Some cleared
       ∧ ∀ k, k ≠ i → jobs s' !! k = jobs s !! k)
  ∧ (∀ q, q ≠ p → getjobpid (jobs s') q = getjobpid (jobs s) q)
  ∧ free_slots (jobs s') = S (free_slots (jobs s)).
Proof.
  intros (Hp & i & job & Hfind & ->)%deletejob_success. simpl.
  pose proof Hfind as (Hi & Hjob & _)%find_pid_Some.
  assert (Hlt : (i < length (jobs s))%nat) by (eapply lookup_lt_Some; eauto).
  split; [apply length_insert|]. split; [|split].
  - exists i, job. split; [exact Hfind|]. split.
    + apply list_lookup_insert_eq. exact Hlt.
    + intros k Hk. apply list_lookup_insert_ne. congruence.
  - intros q Hq. eapply getjobpid_insert_other; [exact Hi| |]; simpl; lia.
  - unfold free_slots. rewrite insert_take_drop by exact Hlt.
    rewrite <- (take_drop_middle (jobs s) i job Hi) at 3.
    rewrite !filter_app, !filter_cons. simpl.
    destruct (decide (0 = 0)); [|contradiction].
    destruct (decide (pid job = 0)); [lia|].
    rewrite !length_app. simpl. lia.
Qed.

Lemma deletejob_keeps_other_jobs_witness :
  deletejob two_jobs 100 = (1, run two_jobs [Del 100])
  ∧ getjobpid (jobs (run two_jobs [Del 100])) 101
    = getjobpid (jobs two_jobs) 101
  ∧ free_slots (jobs (run two_jobs [Del 100]))
    = S (free_slots (jobs two_jobs)).
Proof.
  assert (H1 : deletejob two_jobs 100 = (1, run two_jobs [Del 100]))
    by (vm_compute; reflexivity).
  split; [exact H1|].
  destruct (deletejob_keeps_other_jobs two_jobs 100 _ H1) as (_ & _ & H & Hf).
  split; [apply H; lia | exact Hf].
Defined.

(** X5.  [deletejob] fails exactly on the pids that [getjobpid] does not
    find (among them every pid below 1), and a failed [deletejob] leaves
    the table and [nextjid] as they were. *)
Theorem deletejob_fails_iff_absent (s : shell) (p : Z) :
  (getjobpid (jobs s) p = None ↔ (deletejob s p).1 = 0)
  ∧ ((deletejob s p).1 = 0 → (deletejob s p).2 = s).
Proof.
  unfold getjobpid, deletejob. destruct (decide (p < 1)); simpl.
  - split; [tauto | reflexivity].
  - destruct (find_pid p (jobs s)) as [[i job]|]; simpl.
    + split; [split; discriminate | discriminate].
    + split; [tauto | reflexivity].
Qed.

Lemma empty_slot_cleared e : slot_ok e → pid e = 0 → e = cleared.
Proof. intros [->|[H _]] He; [reflexivity | lia]. Qed.

Lemma deletejob_undoes_addjob (s : shell) (p st : Z) (cmd : string)
    (s' : shell) (out : list event) :
  Forall slot_ok (jobs s) → ¬ has_pid p (jobs s) →
  addjob s p st cmd = (1, s', out) →
  deletejob s' p
  = (1, {| jobs := jobs s; nextjid := maxjid (jobs s) + 1 |}).
Proof.
  intros Hok Hnone (Hp & _ & i & e & Hfree & ->)%addjob_success.
  pose proof Hfree as (Hi & He & _)%find_pid_Some.
  assert (Hlt : (i < length (jobs s))%nat) by (eapply lookup_lt_Some; eauto).
  assert (e = cleared) as ->.
  { apply empty_slot_cleared; [|exact He].
    rewrite Forall_lookup in Hok. eapply Hok; eauto. }
  apply deletejob_success. split; [exact Hp|].
  exists i, (Job p (nextjid s) st cmd). simpl. split.
  - apply find_pid_insert_new; [exact Hlt | reflexivity | exact Hnone].
  - rewrite list_insert_insert_eq.
    change (clearjob (Job p (nextjid s) st cmd)) with cleared.
    rewrite (list_insert_id _ _ _ Hi). reflexivity.
Qed.

(** X6.  In a table whose empty slots are cleared, inserting a job under
    a pid that no slot holds and deleting that pid again gives back the
    table slot for slot; [nextjid] is then the largest job id of the
    table plus one. *)
Theorem addjob_then_deletejob (s : shell) (p st : Z) (cmd : string)
    (s' : shell) (out : list event) :
  Forall slot_ok (jobs s) → ¬ has_pid p (jobs s) →
  addjob s p st cmd = (1, s', out) →
  deletejob s' p
  = (1, {| jobs := jobs s; nextjid := maxjid (jobs s) + 1 |}).
Proof. apply deletejob_undoes_addjob. Qed.

Lemma addjob_then_deletejob_witness :
  (Forall slot_ok (jobs only_100) ∧ ¬ has_pid 7 (jobs only_100)
   ∧ addjob only_100 7 FG "vi" = (1, run only_100 [Add 7 FG "vi"], []))
  ∧ deletejob (run only_100 [Add 7 FG "vi"]) 7
    = (1, {| jobs := jobs only_100; nextjid := maxjid (jobs only_100) + 1 |}).
Proof.
  assert (H0 : Forall slot_ok (jobs only_100)) by by_evaluation.
  assert (H1 : ¬ has_pid 7 (jobs only_100)) by by_evaluation.
  assert (H2 : addjob only_100 7 FG "vi"
               = (1, run only_100 [Add 7 FG "vi"], []))
    by (vm_compute; reflexivity).
  split; [split; [|split]; assumption|].
  exact (addjob_then_deletejob only_100 7 FG "vi" _ [] H0 H1 H2).
Defined.

(** ** The foreground job *)

(** X7.  In a table whose slots are cleared or hold a pid of at least 1,
    [fgpid] returns 0 exactly when no slot is in the foreground state;
    otherwise it returns the pid, at least 1, of the first slot in that
    state, a pid that [getjobpid] finds. *)
Theorem fgpid_zero_iff_no_foreground (jobs : list job_t) :
  Forall slot_ok jobs →
  (fgpid jobs = 0 ↔ ¬ has_fg jobs)
  ∧ (has_fg jobs →
     ∃ i job, list_find (λ job, state job = FG) jobs = Some (i, job)
       ∧ fgpid jobs = pid job ∧ 1 ≤ pid job
       ∧ is_Some (getjobpid jobs (pid job))).
Proof.
  intros Hok. unfold fgpid, has_fg.
  destruct (list_find (λ job, state job = FG) jobs) as [[i job]|] eqn:E.
  - pose proof E as (Hi & Hfg & _)%list_find_Some.
    assert (Hpid : 1 ≤ pid job).
    { rewrite Forall_lookup in Hok.
      destruct (Hok i job Hi) as [->|[H _]]; [discriminate | exact H]. }
    assert (Hex : Exists (λ job, state job = FG) jobs).
    { apply Exists_exists. exists job.
      split; [eapply list_elem_of_lookup_2; eauto | exact Hfg]. }
    split; [split; [lia | contradiction]|].
    intros _. exists i, job. split; [reflexivity|]. split; [reflexivity|].
    split; [exact Hpid|].
    unfold getjobpid. destruct (decide (pid job < 1)); [lia|].
    destruct (find_pid (pid job) jobs) as [[k y]|] eqn:F; [eauto|].
    apply find_pid_None in F. rewrite Forall_lookup in F.
    exfalso. apply (F i job Hi). reflexivity.
  - apply list_find_None in E. split.
    + split; [|reflexivity]. intros _ (job & Hin & Hfg)%Exists_exists.
      rewrite Forall_forall in E. exact (E job Hin Hfg).
    + intros (job & Hin & Hfg)%Exists_exists.
      rewrite Forall_forall in E. exfalso. exact (E job Hin Hfg).
Qed.

Lemma fgpid_zero_iff_no_foreground_witness :
  Forall slot_ok (jobs (run only_100 [Add 7 FG "vi"]))
  ∧ fgpid (jobs (run only_100 [Add 7 FG "vi"])) = 7
  ∧ (fgpid (jobs (run only_100 [Add 7 FG "vi"])) = 0
     ↔ ¬ has_fg (jobs (run only_100 [Add 7 FG "vi"]))).
Proof.
  assert (H0 : Forall slot_ok (jobs (run only_100 [Add 7 FG "vi"])))
    by by_evaluation.
  split; [exact H0|]. split; [vm_compute; reflexivity|].
  exact (proj1 (fgpid_zero_iff_no_foreground _ H0)).
Defined.

(** ** Job ids *)

(** X8.  [maxjid] returns the largest job id of the table, and 0 when no
    slot has a positive job id: no slot has a greater job id, the result
    is never negative, and unless it is 0 some slot has it. *)
Theorem maxjid_is_largest (jobs : list job_t) :
  0 ≤ maxjid jobs
  ∧ Forall (λ job, jid job ≤ maxjid jobs) jobs
  ∧ (maxjid jobs = 0 ∨ Exists (λ job, jid job = maxjid jobs) jobs).
Proof.
  destruct (foldl_maxjid_step 0 jobs) as (H0 & Hall & Hmax).
  split; [exact H0|]. split; [exact Hall|]. exact Hmax.
Qed.

Lemma jids_unique_step s o :
  ahead s → jids_unique (jobs s) → jids_unique (jobs (step s o)).
Proof.
  intros Hs Hu. destruct o as [p st cmd|p]; simpl.
  - destruct (addjob s p st cmd) as [[r s'] out] eqn:E. simpl.
    destruct (addjob_ret s p st cmd) as [Hr|Hr]; rewrite E in Hr;
      simpl in Hr; subst r.
    + apply addjob_failure in E. subst s'. exact Hu.
    + apply addjob_success in E as (_ & _ & i & e & _ & ->). simpl.
      intros j Hj. destruct (decide (j = nextjid s)) as [->|Hne].
      * apply at_most_one_insert_fresh; [apply Hu; exact Hj|].
        intros (job & Hin & Hjid)%Exists_exists.
        pose proof (maxjid_upper (jobs s)) as Hup.
        rewrite Forall_forall in Hup. specialize (Hup job Hin).
        unfold ahead in Hs. lia.
      * apply at_most_one_insert_other; [apply Hu; exact Hj|].
        simpl. congruence.
  - destruct (step_del s p) as [H|(i & job & H)]; simpl in H; rewrite H;
      [exact Hu|].
    intros j Hj. apply at_most_one_insert_other; [apply Hu; exact Hj|].
    simpl. congruence.
Qed.

Lemma jids_unique_run s ops :
  ahead s → jids_unique (jobs s) → unwrapped s ops →
  jids_unique (jobs (run s ops)).
Proof.
  revert s. induction ops as [|o rest IH]; intros s Hs Hu Hw; [exact Hu|].
  destruct Hw as [Hw Hrest]. apply IH; [| |exact Hrest].
  - apply ahead_step; assumption.
  - apply jids_unique_step; assumption.
Qed.

Lemma jids_unique_boot : jids_unique (jobs boot).
Proof.
  intros j Hj. apply (at_most_one_filter (λ job, jid job = j)).
  assert (Hnone : Forall (λ job, jid job ≠ j) (jobs boot)).
  { assert (Hz : Forall (λ job, jid job = 0) (jobs boot)) by by_evaluation.
    eapply Forall_impl; [exact Hz|]. simpl. intros job Hjob. congruence. }
  generalize (jobs boot) Hnone. clear. intros l Hl.
  induction Hl as [|job l Hjob _ IH]; [simpl; lia|].
  rewrite filter_cons. destruct (decide (jid job = j)); [contradiction|].
  exact IH.
Qed.

(** X9.  As long as no insertion has reset [nextjid] to 1, the jobs of
    the table have pairwise distinct job ids, and every job of the table
    is the one [getjobjid] returns for its job id. *)
Theorem jids_distinct_until_wrap (ops : list op) :
  unwrapped boot ops →
  jids_unique (jobs (run boot ops))
  ∧ ∀ i job, jobs (run boot ops) !! i = Some job → pid job ≠ 0 →
      getjobjid (jobs (run boot ops)) (jid job) = Some (i, job).
Proof.
  intros Hw.
  pose proof (jids_unique_run boot ops ahead_boot jids_unique_boot Hw) as Hu.
  split; [exact Hu|]. intros i job Hi Hpid.
  destruct (wf_run boot ops wf_boot) as (_ & Hok & _).
  assert (Hjid : 1 ≤ jid job).
  { rewrite Forall_lookup in Hok.
    destruct (Hok i job Hi) as [->|[_ H]]; [contradiction | exact H]. }
  unfold getjobjid. destruct (decide (jid job < 1)); [lia|].
  unfold find_jid.
  destruct (list_find (λ y, jid y = jid job) (jobs (run boot ops)))
    as [[k y]|] eqn:E.
  - pose proof E as (Hk & Hy & _)%list_find_Some.
    assert (k = i) by (eapply (Hu (jid job)); eauto; lia). subst k.
    rewrite Hi in Hk. injection Hk as <-. reflexivity.
  - apply list_find_None in E. rewrite Forall_lookup in E.
    exfalso. apply (E i job Hi). reflexivity.
Qed.

Lemma jids_distinct_until_wrap_witness :
  unwrapped boot before_wrap
  ∧ jids_unique (jobs (run boot before_wrap))
  ∧ getjobjid (jobs (run boot before_wrap)) 5
    = Some (4%nat, Job 5 5 BG "job").
Proof.
  assert (H : unwrapped boot before_wrap) by by_evaluation.
  destruct (jids_distinct_until_wrap before_wrap H) as [Hu Hget].
  split; [exact H|]. split; [exact Hu|].
  apply (Hget 4%nat (Job 5 5 BG "job")); [reflexivity | discriminate].
Defined.

(** ** The tokenizer on typed lines *)

Lemma append_length a b :
  String.length (a +:+ b) = (String.length a + String.length b)%nat.
Proof. induction a as [|c a IH]; simpl; [reflexivity | rewrite IH; reflexivity]. Qed.

Lemma occurs_append c a b : occurs c (a +:+ b) = occurs c a || occurs c b.
Proof.
  induction a as [|x a IH]; simpl; [reflexivity|].
  rewrite IH. apply orb_assoc.
Qed.

Lemma set_last_space_append x t :
  t ≠ EmptyString → set_last_space (x +:+ t) = x +:+ set_last_space t.
Proof.
  intros Ht. induction x as [|a x IH]; [reflexivity|].
  change (set_last_space (String a (x +:+ t))
          = String a (x +:+ set_last_space t)).
  rewrite <- IH. destruct (x +:+ t) as [|b r] eqn:E; [|reflexivity].
  destruct x; simpl in E; [contradiction | discriminate].
Qed.

Lemma skip_spaces_blanks n rest :
  skip_spaces (blanks n +:+ rest) = skip_spaces rest.
Proof.
  induction n as [|n IH]; simpl; [reflexivity|].
  destruct (decide (" "%char = " "%char)); [exact IH | contradiction].
Qed.

Lemma parseline_of_blanks (n : nat) (c : ascii) (argc_dest : Z) :
  Z.of_nat n + 1 < MAXLINE →
  parseline (blanks n +:+ String c EmptyString) argc_dest
  = Some {| bg_flag := 1; argc_out := argc_dest; argv_out := [] |}.
Proof.
  intros Hn. unfold parseline.
  destruct (decide (blanks n +:+ String c EmptyString = EmptyString)) as [E|_].
  { destruct n; discriminate. }
  rewrite append_length. simpl String.length.
  destruct (decide (MAXLINE ≤ Z.of_nat (String.length (blanks n) + 1))) as [H|_].
  { exfalso. revert H. clear -Hn.
    assert (String.length (blanks n) = n) as ->
      by (clear; induction n as [|n IH]; simpl; [|rewrite IH]; reflexivity).
    lia. }
  rewrite set_last_space_append by discriminate. simpl set_last_space.
  rewrite skip_spaces_blanks. reflexivity.
Qed.

(** X10.  A line that holds only spaces before its last character is a
    blank line, whatever that last character is: [parseline] finds no
    argument, returns 1 and leaves [*argc_dest] unwritten. *)
Theorem parseline_blank_line (n : nat) (c : ascii) (argc_dest : Z) :
  Z.of_nat n + 1 < MAXLINE →
  parseline (blanks n +:+ String c EmptyString) argc_dest
  = Some {| bg_flag := 1; argc_out := argc_dest; argv_out := [] |}.
Proof. apply parseline_of_blanks. Qed.

Lemma parseline_blank_line_witness :
  Z.of_nat 3 + 1 < MAXLINE
  ∧ parseline ("   " +:+ nl) 5
    = Some {| bg_flag := 1; argc_out := 5; argv_out := [] |}.
Proof.
  split; [reflexivity|]. apply (parseline_blank_line 3 LF 5). reflexivity.
Defined.

Lemma strchr_spec buf c arg tail :
  strchr buf c = Some (arg, tail) →
  buf = arg +:+ String c tail ∧ occurs c arg = false.
Proof.
  revert arg. induction buf as [|a buf IH]; intros arg; simpl; [discriminate|].
  destruct (decide (a = c)) as [->|Hne].
  - intros [= <- <-]. split; reflexivity.
  - destruct (strchr buf c) as [[arg' tail']|]; [|discriminate].
    intros [= <- <-]. destruct (IH arg' eq_refl) as [-> Hocc].
    split; [reflexivity|]. simpl. rewrite Hocc.
    rewrite bool_decide_eq_false_2 by exact Hne. reflexivity.
Qed.

Lemma strchr_word w c rest :
  occurs c w = false → strchr (w +:+ String c rest) c = Some (w, rest).
Proof.
  induction w as [|a w IH]; simpl.
  - intros _. destruct (decide (c = c)); [reflexivity | contradiction].
  - intros [Ha Hw]%orb_false_elim. apply bool_decide_eq_false in Ha.
    destruct (decide (a = c)); [contradiction|]. rewrite (IH Hw). reflexivity.
Qed.

Lemma find_delim_word w rest :
  is_word w → find_delim (w +:+ String " "%char rest) = Some (w, rest).
Proof.
  intros (Hne & Hsp & Hq). destruct w as [|a w]; [contradiction|].
  simpl in Hq. apply bool_decide_eq_false in Hq.
  change (find_delim (String a (w +:+ String " "%char rest))
          = Some (String a w, rest)).
  unfold find_delim. destruct (decide (a = "'"%char)); [contradiction|].
  apply (strchr_word (String a w)). exact Hsp.
Qed.

Lemma skip_spaces_spaced ws :
  Forall is_word ws → skip_spaces (spaced ws) = spaced ws.
Proof.
  intros Hws. destruct Hws as [|w ws (Hne & Hsp & _) _]; [reflexivity|].
  destruct w as [|a w]; [contradiction|]. simpl in *.
  apply orb_false_elim in Hsp as [Ha _]. apply bool_decide_eq_false in Ha.
  destruct (decide (a = " "%char)); [contradiction | reflexivity].
Qed.

Lemma build_argv_spaced ws :
  Forall is_word ws →
  ∀ n, (String.length (spaced ws) ≤ n)%nat → build_argv n (spaced ws) = ws.
Proof.
  induction 1 as [|w ws Hw Hws IH]; intros n Hn.
  - destruct n; reflexivity.
  - simpl in Hn. rewrite append_length in Hn. simpl in Hn.
    destruct n as [|n]; [lia|]. simpl.
    rewrite (find_delim_word w (spaced ws) Hw).
    rewrite (skip_spaces_spaced ws Hws). f_equal. apply IH. lia.
Qed.

Lemma typed_line_nonempty ws : typed_line ws ≠ EmptyString.
Proof.
  destruct ws as [|w [|w' ws]]; simpl; [discriminate| |];
    destruct w; discriminate.
Qed.

Lemma set_last_space_typed_line ws :
  ws ≠ [] → set_last_space (typed_line ws) = spaced ws.
Proof.
  induction ws as [|w ws IH]; intros Hne; [contradiction|].
  destruct ws as [|w' ws].
  - simpl. apply (set_last_space_append w nl). discriminate.
  - change (typed_line (w :: w' :: ws))
      with (w +:+ String " "%char (typed_line (w' :: ws))).
    rewrite set_last_space_append by discriminate.
    change (spaced (w :: w' :: ws))
      with (w +:+ String " "%char (spaced (w' :: ws))).
    f_equal.
    pose proof (typed_line_nonempty (w' :: ws)) as Hl.
    destruct (typed_line (w' :: ws)) as [|b r] eqn:E; [contradiction|].
    change (String " "%char (set_last_space (String b r))
            = String " "%char (spaced (w' :: ws))).
    f_equal. apply IH. discriminate.
Qed.

(** X11.  A line typed as words with one space between them and a
    newline at the end is cut back into those words.  When the last word
    begins with [&] it is dropped and the result is 1 (background);
    otherwise the result is 0.  The count stored in [*argc_dest] is that
    of the words returned. *)
Theorem parseline_typed_line (ws : list string) (argc_dest : Z) :
  ws ≠ [] → Forall is_word ws →
  Z.of_nat (String.length (typed_line ws)) < MAXLINE →
  Z.of_nat (length ws) < MAXARGS →
  parseline (typed_line ws) argc_dest
  = Some (if starts_with_amp (List.last ws EmptyString)
          then {| bg_flag := 1; argc_out := Z.of_nat (length ws) - 1;
                  argv_out := removelast ws |}
          else {| bg_flag := 0; argc_out := Z.of_nat (length ws);
                  argv_out := ws |}).
Proof.
  intros Hne Hws Hline Hargs. unfold parseline.
  destruct (decide (typed_line ws = EmptyString)) as [E|_];
    [exfalso; exact (typed_line_nonempty ws E)|].
  destruct (decide (MAXLINE ≤ Z.of_nat (String.length (typed_line ws))));
    [lia|].
  rewrite (set_last_space_typed_line ws Hne).
  rewrite (skip_spaces_spaced ws Hws).
  rewrite (build_argv_spaced ws Hws _ (le_n _)).
  destruct (decide (MAXARGS ≤ Z.of_nat (length ws))); [lia|].
  destruct (decide (Z.of_nat (length ws) = 0)) as [E|_].
  { destruct ws; [contradiction | simpl in E; lia]. }
  destruct (starts_with_amp (List.last ws EmptyString)); reflexivity.
Qed.

Lemma parseline_typed_line_witness :
  (["/bin/sleep"; "5"; "&"] ≠ [] ∧ Forall is_word ["/bin/sleep"; "5"; "&"]
   ∧ Z.of_nat (String.length (typed_line ["/bin/sleep"; "5"; "&"])) < MAXLINE
   ∧ Z.of_nat (length ["/bin/sleep"; "5"; "&"]) < MAXARGS)
  ∧ parseline ("/bin/sleep 5 &" +:+ nl) 0
    = Some {| bg_flag := 1; argc_out := 2; argv_out := ["/bin/sleep"; "5"] |}.
Proof.
  assert (H1 : ["/bin/sleep"; "5"; "&"] ≠ []) by discriminate.
  assert (H2 : Forall is_word ["/bin/sleep"; "5"; "&"]) by by_evaluation.
  assert (H3 : Z.of_nat (String.length (typed_line ["/bin/sleep"; "5"; "&"]))
               < MAXLINE) by reflexivity.
  assert (H4 : Z.of_nat (length ["/bin/sleep"; "5"; "&"]) < MAXARGS)
    by reflexivity.
  split; [repeat split; assumption|].
  exact (parseline_typed_line ["/bin/sleep"; "5"; "&"] 0 H1 H2 H3 H4).
Defined.

Lemma occurs_set_last_space q s :
  q ≠ " "%char → occurs q (set_last_space s) = true → occurs q s = true.
Proof.
  intros Hq. induction s as [|a s IH]; [discriminate|].
  destruct s as [|b r].
  - simpl. rewrite (bool_decide_eq_false_2 (" "%char = q)) by congruence.
    discriminate.
  - change (occurs q (String a (set_last_space (String b r))) = true
            → occurs q (String a (String b r)) = true).
    cbn [occurs]. intros [H|H]%orb_true_iff.
    + rewrite H. reflexivity.
    + apply IH in H. cbn [occurs] in H. rewrite H. apply orb_true_r.
Qed.

Lemma occurs_skip_spaces q s :
  occurs q (skip_spaces s) = true → occurs q s = true.
Proof.
  induction s as [|a s IH]; simpl; [discriminate|].
  destruct (decide (a = " "%char)); [|intros H; exact H].
  intros H. apply orb_true_iff. right. apply IH. exact H.
Qed.

Lemma skip_spaces_head s :
  skip_spaces s = EmptyString
  ∨ ∃ c r, skip_spaces s = String c r ∧ c ≠ " "%char.
Proof.
  induction s as [|a s IH]; simpl; [left; reflexivity|].
  destruct (decide (a = " "%char)); [exact IH | right; eauto].
Qed.

Lemma build_argv_unquoted n :
  ∀ buf, occurs "'"%char buf = false →
    (buf = EmptyString ∨ ∃ c r, buf = String c r ∧ c ≠ " "%char) →
    Forall (λ w, w ≠ EmptyString ∧ occurs " "%char w = false)
           (build_argv n buf).
Proof.
  induction n as [|n IH]; intros buf Hq Hhead; simpl; [constructor|].
  destruct Hhead as [->|(c & r & -> & Hc)]; [constructor|].
  simpl in Hq. apply orb_false_elim in Hq as [Hcq Hrq].
  apply bool_decide_eq_false in Hcq.
  unfold find_delim. destruct (decide (c = "'"%char)); [contradiction|].
  destruct (strchr (String c r) " "%char) as [[arg tail]|] eqn:E;
    [|constructor].
  apply strchr_spec in E as [Hbuf Harg].
  assert (Htail : occurs "'"%char tail = false).
  { assert (H : occurs "'"%char (String c r) = false)
      by (simpl; rewrite bool_decide_eq_false_2 by exact Hcq; exact Hrq).
    rewrite Hbuf, occurs_append in H. apply orb_false_elim in H as [_ H].
    simpl in H. exact H. }
  constructor.
  - split; [|exact Harg]. intros ->. simpl in Hbuf.
    injection Hbuf as -> _. contradiction.
  - apply IH.
    + destruct (occurs "'"%char (skip_spaces tail)) eqn:F; [|reflexivity].
      apply occurs_skip_spaces in F. congruence.
    + apply skip_spaces_head.
Qed.

Lemma Forall_removelast {A} (P : A → Prop) l :
  Forall P l → Forall P (removelast l).
Proof.
  induction 1 as [|x l Hx Hl IH]; simpl; [constructor|].
  destruct l; [constructor | constructor; assumption].
Qed.

(** X12.  Whatever the line, when [parseline] returns: its result is 0
    or 1; the arguments and their NULL fit the [MAXARGS] slots of [argv];
    the count stored in [*argc_dest] is the number of arguments, unless
    the line is blank, when nothing is stored and 1 is returned; a result
    of 0 comes with at least one argument; and on a line without a quote
    no argument is empty or holds a space. *)
Theorem parseline_result_shape (cmdline : string) (argc_dest : Z)
    (r : parsed) :
  parseline cmdline argc_dest = Some r →
  (bg_flag r = 0 ∨ bg_flag r = 1)
  ∧ Z.of_nat (length (argv_out r)) < MAXARGS
  ∧ (argc_out r = Z.of_nat (length (argv_out r))
     ∨ (argv_out r = [] ∧ bg_flag r = 1 ∧ argc_out r = argc_dest))
  ∧ (bg_flag r = 0 → argv_out r ≠ [])
  ∧ (occurs "'"%char cmdline = false →
     Forall (λ w, w ≠ EmptyString ∧ occurs " "%char w = false) (argv_out r)).
Proof.
  unfold parseline.
  destruct (decide (cmdline = EmptyString)); [discriminate|].
  destruct (decide (MAXLINE ≤ Z.of_nat (String.length cmdline)));
    [discriminate|].
  set (buf := skip_spaces (set_last_space cmdline)).
  set (argv := build_argv (String.length buf) buf).
  assert (Hwords : occurs "'"%char cmdline = false →
            Forall (λ w, w ≠ EmptyString ∧ occurs " "%char w = false) argv).
  { intros Hq. apply build_argv_unquoted; [|apply skip_spaces_head].
    destruct (occurs "'"%char buf) eqn:F; [|reflexivity].
    apply occurs_skip_spaces, occurs_set_last_space in F;
      [congruence | discriminate]. }
  destruct (decide (MAXARGS ≤ Z.of_nat (length argv))); [discriminate|].
  destruct (decide (Z.of_nat (length argv) = 0)) as [Hz|Hz].
  - intros [= <-]. simpl. assert (argv = []) as Hnil
      by (destruct argv; [reflexivity | simpl in Hz; lia]).
    rewrite Hnil. simpl. split; [right; reflexivity|].
    split; [unfold MAXARGS; lia|]. split; [right; tauto|].
    split; [discriminate | constructor].
  - destruct (starts_with_amp (List.last argv EmptyString)).
    + intros [= <-]. simpl.
      assert (Hlen : Z.of_nat (length (removelast argv))
                     = Z.of_nat (length argv) - 1).
      { destruct argv as [|a l]; [simpl in Hz; lia|].
        rewrite (app_removelast_last EmptyString (l := a :: l)) at 2
          by discriminate.
        rewrite length_app. simpl. lia. }
      split; [right; reflexivity|]. split; [lia|].
      split; [left; lia|]. split; [discriminate|].
      intros Hq. apply Forall_removelast, Hwords, Hq.
    + intros [= <-]. simpl. split; [left; reflexivity|]. split; [lia|].
      split; [left; reflexivity|]. split; [|exact Hwords].
      intros _ Hnil. rewrite Hnil in Hz. simpl in Hz. lia.
Qed.

Lemma parseline_result_shape_witness :
  parseline ("ls  -l   /tmp" +:+ nl) 0
  = Some {| bg_flag := 0; argc_out := 3; argv_out := ["ls"; "-l"; "/tmp"] |}
  ∧ Forall (λ w, w ≠ EmptyString ∧ occurs " "%char w = false)
           ["ls"; "-l"; "/tmp"].
Proof.
  assert (H : parseline ("ls  -l   /tmp" +:+ nl) 0
              = Some {| bg_flag := 0; argc_out := 3;
                        argv_out := ["ls"; "-l"; "/tmp"] |})
    by (vm_compute; reflexivity).
  split; [exact H|].
  destruct (parseline_result_shape _ _ _ H) as (_ & _ & _ & _ & Hw).
  apply Hw. reflexivity.
Defined.

(** ** Numbers as text *)

Lemma dec_neg p :
  dec (Z.neg p) = String "-"%char (NilEmpty.string_of_uint (Pos.to_uint p)).
Proof.
  unfold dec. simpl. pose proof (Unsigned.to_uint_nonnil p) as H.
  destruct (Pos.to_uint p); [contradiction|..]; reflexivity.
Qed.

Lemma strtol_dec_any (n : Z) :
  LONG_MIN ≤ n ≤ LONG_MAX → strtol (dec n) = (n, EmptyString).
Proof.
  intros Hn. destruct n as [|p|p].
  - reflexivity.
  - apply strtol_dec. unfold LONG_MIN in Hn. lia.
  - rewrite dec_neg.
    destruct (string_of_uint_head (Pos.to_uint p) (Unsigned.to_uint_nonnil p))
      as (c & rest & Hs & [k Hk] & _).
    pose proof (digits_of_uint (Pos.to_uint p)) as Hdig.
    rewrite Unsigned.of_to in Hdig. rewrite Hs in *.
    unfold strtol. cbn [skip_isspace].
    change (isspace "-"%char) with false. cbv iota.
    destruct (decide ("-"%char = "-"%char)); [|contradiction].
    rewrite Hk, Hdig. cbn [Z.of_N]. unfold clamp_long.
    destruct (decide (- Z.pos p > LONG_MAX)); [unfold LONG_MAX in *; lia|].
    destruct (decide (- Z.pos p < LONG_MIN)); [lia|].
    reflexivity.
Qed.

(** The text of a number does not begin with [%]. *)
Lemma split_id_dec_any (n : Z) : split_id (dec n) = (false, dec n).
Proof.
  destruct n as [|p|p].
  - reflexivity.
  - apply split_id_dec. lia.
  - rewrite dec_neg. reflexivity.
Qed.

(** X13.  What [printf] writes for a number with [%d] is read back by
    [strtol] as that number, to the end of the text, for every value of a
    [long]. *)
Theorem strtol_reads_back_dec (n : Z) :
  LONG_MIN ≤ n ≤ LONG_MAX → strtol (dec n) = (n, EmptyString).
Proof. apply strtol_dec_any. Qed.

Lemma strtol_reads_back_dec_witness :
  LONG_MIN ≤ -2147483648 ≤ LONG_MAX
  ∧ strtol "-2147483648" = (-2147483648, EmptyString).
Proof.
  assert (H : LONG_MIN ≤ -2147483648 ≤ LONG_MAX) by (split; discriminate).
  split; [exact H | exact (strtol_reads_back_dec (-2147483648) H)].
Defined.

Lemma skip_isspace_split s :
  ∃ ws, s = ws +:+ skip_isspace s ∧ all_chars isspace ws = true.
Proof.
  induction s as [|c s (ws & Hs & Hws)]; simpl.
  - exists EmptyString. split; reflexivity.
  - destruct (isspace c) eqn:E.
    + exists (String c ws). split; [|simpl; rewrite E, Hws; reflexivity].
      change (String c s = String c (ws +:+ skip_isspace s)).
      rewrite <- Hs. reflexivity.
    + exists EmptyString. split; reflexivity.
Qed.

Lemma skip_isspace_append ws rest :
  all_chars isspace ws = true →
  skip_isspace (ws +:+ rest) = skip_isspace rest.
Proof.
  induction ws as [|c ws IH]; simpl; [reflexivity|].
  intros [Hc Hws]%andb_true_iff. rewrite Hc. apply IH. exact Hws.
Qed.

Lemma digits_split s :
  ∀ acc, ∃ ds, s = ds +:+ (digits acc s).2 ∧ all_chars is_digit ds = true.
Proof.
  induction s as [|c s IH]; intros acc.
  - exists EmptyString. split; reflexivity.
  - cbn [digits]. destruct (digit_of c) as [d|] eqn:E.
    + destruct (IH (10 * acc + d)) as (ds & Hs & Hds).
      assert (Hc : is_digit c = true) by (unfold is_digit; rewrite E; reflexivity).
      exists (String c ds). split.
      * change (String c s
                = String c (ds +:+ (digits (10 * acc + d) s).2)).
        rewrite <- Hs. reflexivity.
      * cbn [all_chars]. rewrite Hc. exact Hds.
    + exists EmptyString. split; reflexivity.
Qed.

Lemma digits_of_numerals ds :
  all_chars is_digit ds = true → ∀ acc, (digits acc ds).2 = EmptyString.
Proof.
  induction ds as [|c ds IH]; [reflexivity|].
  cbn [all_chars digits]. intros [Hc Hds]%andb_true_iff acc.
  unfold is_digit in Hc. destruct (digit_of c) as [d|]; [|discriminate].
  apply IH. exact Hds.
Qed.

Lemma digit_is_no_sign_or_space c :
  is_digit c = true →
  isspace c = false ∧ c ≠ "-"%char ∧ c ≠ "+"%char.
Proof.
  unfold is_digit, digit_of.
  destruct (decide (48 ≤ Z.of_nat (nat_of_ascii c)
                    ∧ Z.of_nat (nat_of_ascii c) ≤ 57)) as [H|]; [|discriminate].
  intros _. split; [|split].
  - unfold isspace. apply bool_decide_eq_false. lia.
  - intros ->. vm_compute in H. destruct H as [H _]. apply H. reflexivity.
  - intros ->. vm_compute in H. destruct H as [H _]. apply H. reflexivity.
Qed.

(** X14.  [strtol] reads a text to its end in exactly two cases: the
    text is empty, or it is made of white space, an optional sign and at
    least one digit.  These are the arguments that pass the test of
    [do_bgfg] on the character where the conversion stopped. *)
Theorem strtol_reads_all_iff_numeral (s : string) :
  (strtol s).2 = EmptyString ↔ s = EmptyString ∨ numeral s.
Proof.
  split.
  - destruct (skip_isspace_split s) as (ws & Hs & Hws).
    unfold strtol.
    destruct (skip_isspace s) as [|c rest] eqn:Ht; [simpl; tauto|].
    set (sb := if decide (c = "-"%char) then (true, rest)
               else if decide (c = "+"%char) then (false, rest)
               else (false, String c rest)).
    assert (Hsb : ∃ sign, String c rest = sign +:+ sb.2
                   ∧ (sign = EmptyString ∨ sign = "+" ∨ sign = "-")).
    { unfold sb. destruct (decide (c = "-"%char)) as [->|].
      - exists "-". split; [reflexivity | tauto].
      - destruct (decide (c = "+"%char)) as [->|].
        + exists "+". split; [reflexivity | tauto].
        + exists EmptyString. split; [reflexivity | tauto]. }
    destruct sb as [neg body]. simpl in Hsb.
    destruct Hsb as (sign & Hsign & Hcases).
    destruct body as [|d body']; [simpl; tauto|].
    destruct (digit_of d) as [k|] eqn:Hd; [|simpl; tauto].
    destruct (digits_split (String d body') 0) as (ds & Hds & Hall).
    destruct (digits 0 (String d body')) as [v e] eqn:Hdig. simpl in *.
    intros ->. right. exists ws, sign, ds.
    split; [|split; [exact Hws|split; [exact Hcases|split; [|exact Hall]]]].
    + assert (Happ : ∀ x, x +:+ EmptyString = x).
      { induction x as [|a x IH]; [reflexivity|].
        change (String a (x +:+ EmptyString) = String a x).
        rewrite IH. reflexivity. }
      rewrite Happ in Hds. rewrite Hs, Hsign, Hds. reflexivity.
    + intros ->. simpl in Hds. discriminate.
  - intros [Heq|Hnum]; [subst s; reflexivity|].
    destruct Hnum as (ws & sign & ds & Heq & Hws & Hsign & Hne & Hds).
    subst s.
    destruct ds as [|d ds']; [contradiction|].
    pose proof Hds as [Hd _]%andb_true_iff.
    destruct (digit_is_no_sign_or_space d Hd) as (Hsp & Hm & Hp).
    pose proof (digits_of_numerals _ Hds 0) as Hend.
    unfold is_digit in Hd. destruct (digit_of d) as [k|] eqn:Hk; [|discriminate].
    unfold strtol. rewrite (skip_isspace_append ws _ Hws).
    destruct Hsign as [-> | [-> | ->]].
    + change (EmptyString +:+ String d ds') with (String d ds').
      cbn [skip_isspace]. rewrite Hsp.
      destruct (decide (d = "-"%char)); [contradiction|].
      destruct (decide (d = "+"%char)); [contradiction|].
      rewrite Hk. destruct (digits 0 (String d ds')) as [v endp].
      simpl in *. exact Hend.
    + change ("+" +:+ String d ds') with (String "+"%char (String d ds')).
      cbn [skip_isspace]. change (isspace "+"%char) with false.
      cbv iota. destruct (decide ("+"%char = "-"%char)); [discriminate|].
      destruct (decide ("+"%char = "+"%char)); [|contradiction].
      rewrite Hk. destruct (digits 0 (String d ds')) as [v endp].
      simpl in *. exact Hend.
    + change ("-" +:+ String d ds') with (String "-"%char (String d ds')).
      cbn [skip_isspace]. change (isspace "-"%char) with false.
      cbv iota. destruct (decide ("-"%char = "-"%char)); [|contradiction].
      rewrite Hk. destruct (digits 0 (String d ds')) as [v endp].
      simpl in *. exact Hend.
Qed.

(** ** The handlers and the table *)

Lemma deletejob_of_absent s p :
  getjobpid (jobs s) p = None → deletejob s p = (0, s).
Proof.
  unfold getjobpid, deletejob. destruct (decide (p < 1)); [reflexivity|].
  intros ->. reflexivity.
Qed.

(** X15.  A child that ended, by exit or by a signal, and whose pid the
    table does not hold is reaped without a trace: the handler returns,
    the table and [nextjid] are as before and nothing is printed. *)
Theorem sigchld_unknown_child (s : shell) (p : Z) (status : wstatus)
    (rest : list (Z * wstatus)) :
  getjobpid (jobs s) p = None →
  (∃ n, status = Wexited n ∨ status = Wsignaled n) →
  sigchld_handler s ((p, status) :: rest) = (Return s, rest, []).
Proof.
  intros Hnone (n & [-> | ->]); simpl;
    rewrite (deletejob_of_absent s p Hnone); reflexivity.
Qed.

Lemma sigchld_unknown_child_witness :
  (getjobpid (jobs only_100) 55 = None
   ∧ ∃ n, Wsignaled 9 = Wexited n ∨ Wsignaled 9 = Wsignaled n)
  ∧ sigchld_handler only_100 [(55, Wsignaled 9)] = (Return only_100, [], []).
Proof.
  assert (H1 : getjobpid (jobs only_100) 55 = None) by (vm_compute; reflexivity).
  assert (H2 : ∃ n, Wsignaled 9 = Wexited n ∨ Wsignaled 9 = Wsignaled n)
    by (exists 9; right; reflexivity).
  split; [split; assumption|].
  exact (sigchld_unknown_child only_100 55 (Wsignaled 9) [] H1 H2).
Defined.

Lemma fgpid_found jobs :
  Forall slot_ok jobs → fgpid jobs ≠ 0 →
  has_fg jobs ∧ is_Some (getjobpid jobs (fgpid jobs)).
Proof.
  intros Hok Hp. unfold fgpid in *.
  destruct (list_find (λ job, state job = FG) jobs) as [[i job]|] eqn:E;
    [|contradiction].
  apply list_find_Some in E as (Hi & Hfg & _).
  assert (Hin : job ∈ jobs) by (eapply list_elem_of_lookup_2; eauto).
  split; [apply Exists_exists; eauto|].
  assert (Hpid : 1 ≤ pid job).
  { rewrite Forall_lookup in Hok.
    destruct (Hok i job Hi) as [->|[H _]]; [discriminate | exact H]. }
  unfold getjobpid. destruct (decide (pid job < 1)); [lia|].
  destruct (find_pid (pid job) jobs) as [[k y]|] eqn:F; [eauto|].
  apply find_pid_None in F. rewrite Forall_lookup in F.
  exfalso. apply (F i job Hi). reflexivity.
Qed.

Lemma fgpid_none jobs : fgpid jobs = 0 → Forall slot_ok jobs → ¬ has_fg jobs.
Proof.
  intros Hp Hok (job & Hin & Hfg)%Exists_exists. unfold fgpid in Hp.
  destruct (list_find (λ job, state job = FG) jobs) as [[i y]|] eqn:E.
  - apply list_find_Some in E as (Hi & Hy & _).
    rewrite Forall_lookup in Hok.
    destruct (Hok i y Hi) as [->|[H _]]; [discriminate | lia].
  - apply list_find_None in E. rewrite Forall_forall in E.
    exact (E job Hin Hfg).
Qed.

(** X16.  In a table whose slots are cleared or hold a pid of at least
    1, the handlers of SIGINT and of SIGTSTP return and leave the table
    as it is, whether [kill] succeeds or not.  Each makes one call of
    [kill], with the signal it caught and the negated pid of the first
    foreground job as target, when a slot is in the foreground state, and
    none otherwise. *)
Theorem keyboard_signals_go_to_foreground (s : shell) (sig : Z)
    (kill_ok : bool) :
  Forall slot_ok (jobs s) →
  (sigint_handler s sig kill_ok).1 = Return s
  ∧ (sigtstp_handler s sig kill_ok).1 = Return s
  ∧ kills (sigint_handler s sig kill_ok).2
    = (if decide (has_fg (jobs s)) then [(- fgpid (jobs s), sig)] else [])
  ∧ kills (sigtstp_handler s sig kill_ok).2
    = kills (sigint_handler s sig kill_ok).2.
Proof.
  intros Hok. unfold sigint_handler, sigtstp_handler.
  destruct (decide (fgpid (jobs s) = 0)) as [Hz|Hnz].
  - pose proof (fgpid_none _ Hz Hok) as Hno.
    destruct (decide (has_fg (jobs s))); [contradiction|].
    repeat split; reflexivity.
  - destruct (fgpid_found _ Hok Hnz) as [Hfg [[i job] Hget]].
    destruct (decide (has_fg (jobs s))); [|contradiction].
    rewrite Hget. destruct kill_ok; repeat split; reflexivity.
Qed.

Lemma keyboard_signals_go_to_foreground_witness :
  Forall slot_ok (jobs (run only_100 [Add 7 FG "vi"]))
  ∧ sigint_handler (run only_100 [Add 7 FG "vi"]) 2 true
    = (Return (run only_100 [Add 7 FG "vi"]),
       [Kill (-7) 2;
        Stdout ("Job [2] (7) terminated by signal 2" +:+ nl)])
  ∧ kills (sigtstp_handler (run only_100 [Add 7 FG "vi"]) 20 true).2
    = [(-7, 20)].
Proof.
  assert (H : Forall slot_ok (jobs (run only_100 [Add 7 FG "vi"])))
    by by_evaluation.
  split; [exact H|]. split; [vm_compute; reflexivity|].
  destruct (keyboard_signals_go_to_foreground _ 20 true H) as (_ & _ & Hi & Ht).
  rewrite Ht, Hi. vm_compute. reflexivity.
Defined.

Lemma slot_after_deletejob s p k job' :
  jobs (deletejob s p).2 !! k = Some job' →
  ∃ job, jobs s !! k = Some job ∧ (job' = job ∨ job' = cleared).
Proof.
  destruct (step_del s p) as [H|(i & y & H)]; simpl in H; rewrite H.
  - eauto.
  - intros [(-> & <- & Hlt)|(_ & Hk)]%list_lookup_insert_Some.
    + destruct (lookup_lt_is_Some_2 (jobs s) k Hlt) as [job Hjob].
      exists job. split; [exact Hjob | right; reflexivity].
    + eauto.
Qed.

Lemma slot_after_set_state s i st k job' :
  jobs (set_state s i st) !! k = Some job' →
  ∃ job, jobs s !! k = Some job ∧ (job' = job ∨ job' = with_state st job).
Proof.
  simpl. destruct (decide (i = k)) as [->|Hne].
  - rewrite list_lookup_alter_eq.
    destruct (jobs s !! k) as [job|]; [|discriminate].
    intros [= <-]. eauto.
  - rewrite list_lookup_alter_ne by exact Hne. eauto.
Qed.

(** X17.  No handler makes a job.  After a handler that returns, the
    table has the length it had, and every slot is as it was, or
    cleared, or as it was but for its state, now stopped: the pid, the
    job id and the command line of a job that stays never change. *)
Theorem handlers_never_add_jobs (s : shell) (d : delivery) (s' : shell)
    (out : list event) :
  handle s d = (Return s', out) →
  length (jobs s') = length (jobs s)
  ∧ ∀ k job', jobs s' !! k = Some job' →
      ∃ job, jobs s !! k = Some job
        ∧ (job' = job ∨ job' = cleared ∨ job' = with_state ST job).
Proof.
  intros H.
  assert (Hslots : ∀ k job', jobs s' !! k = Some job' →
            ∃ job, jobs s !! k = Some job
              ∧ (job' = job ∨ job' = cleared ∨ job' = with_state ST job)).
  { destruct d as [reapable|sig ok|sig ok|]; simpl in H.
    - destruct reapable as [|[q status] rest]; simpl in H.
      + injection H as <- _. eauto.
      + destruct (sigchld_child_leaves s q status) as [e He].
        destruct (sigchld_child s q status) as [[t|e'] out'] eqn:E;
          simpl in He; [discriminate|]. injection He as ->.
        injection H as -> _. destruct status; simpl in E.
        * injection E as <- _. intros k job' Hk.
          destruct (slot_after_deletejob s q k job' Hk) as (job & ? & [?|?]);
            eauto.
        * injection E as <- _. intros k job' Hk.
          destruct (slot_after_deletejob s q k job' Hk) as (job & ? & [?|?]);
            eauto.
        * destruct (getjobpid (jobs s) q) as [[i y]|]; [|discriminate].
          injection E as <- _. intros k job' Hk.
          destruct (slot_after_set_state s i ST k job' Hk)
            as (job & ? & [?|?]); eauto.
        * discriminate.
    - unfold sigint_handler in H.
      destruct (decide (fgpid (jobs s) = 0)); [injection H as <- _; eauto|].
      destruct ok; [|injection H as <- _; eauto].
      destruct (getjobpid (jobs s) (fgpid (jobs s))) as [[i job]|];
        [injection H as <- _; eauto | discriminate].
    - unfold sigtstp_handler in H.
      destruct (decide (fgpid (jobs s) = 0)); [injection H as <- _; eauto|].
      destruct ok; injection H as <- _; eauto.
    - discriminate. }
  split; [|exact Hslots].
  apply Nat.le_antisymm.
  - destruct (decide (length (jobs s') ≤ length (jobs s))%nat) as [|Hgt];
      [assumption|]. exfalso.
    destruct (lookup_lt_is_Some_2 (jobs s') (length (jobs s)) ltac:(lia))
      as [job' Hjob'].
    destruct (Hslots _ _ Hjob') as (job & Hjob & _).
    apply lookup_lt_Some in Hjob. lia.
  - clear Hslots. destruct d as [reapable|sig ok|sig ok|]; simpl in H.
    + destruct reapable as [|[q status] rest]; simpl in H.
      * injection H as <- _. lia.
      * destruct (sigchld_child_leaves s q status) as [e He].
        destruct (sigchld_child s q status) as [[t|e'] out'] eqn:E;
          simpl in He; [discriminate|]. injection He as ->.
        injection H as -> _. destruct status; simpl in E.
        -- injection E as <- _.
           destruct (step_del s q) as [H|(i & y & H)]; simpl in H; rewrite H;
             [|rewrite length_insert]; lia.
        -- injection E as <- _.
           destruct (step_del s q) as [H|(i & y & H)]; simpl in H; rewrite H;
             [|rewrite length_insert]; lia.
        -- destruct (getjobpid (jobs s) q) as [[i y]|]; [|discriminate].
           injection E as <- _. simpl. rewrite length_alter. lia.
        -- discriminate.
    + unfold sigint_handler in H.
      destruct (decide (fgpid (jobs s) = 0)); [injection H as <- _; lia|].
      destruct ok; [|injection H as <- _; lia].
      destruct (getjobpid (jobs s) (fgpid (jobs s))) as [[i job]|];
        [injection H as <- _; lia | discriminate].
    + unfold sigtstp_handler in H.
      destruct (decide (fgpid (jobs s) = 0)); [injection H as <- _; lia|].
      destruct ok; injection H as <- _; lia.
    + discriminate.
Qed.

Lemma handlers_never_add_jobs_witness :
  handle two_jobs (Sigchld [(100, Wstopped 20)])
  = (Return (set_state two_jobs 0 ST),
     [Stdout ("Job [1] (100) stopped by signal 20" +:+ nl)])
  ∧ length (jobs (set_state two_jobs 0 ST)) = length (jobs two_jobs).
Proof.
  assert (H : handle two_jobs (Sigchld [(100, Wstopped 20)])
              = (Return (set_state two_jobs 0 ST),
                 [Stdout ("Job [1] (100) stopped by signal 20" +:+ nl)]))
    by (vm_compute; reflexivity).
  split; [exact H|].
  exact (proj1 (handlers_never_add_jobs _ _ _ _ H)).
Defined.

(** ** What ends a wait *)

Lemma waitfg_not_waiting p s sigs :
  waiting s p = false → waitfg p s sigs = (Returned s sigs, []).
Proof.
  intros Hw. unfold waitfg. destruct sigs; simpl; rewrite Hw; reflexivity.
Qed.

(** At the test or past it, a shell whose job is in the foreground is
    bound for [pause()]. *)
Lemma waitfg_from_waiting tested p s sigs :
  waiting s p = true → waitfg_from tested p s sigs = waitfg p s sigs.
Proof.
  intros Hw. unfold waitfg.
  destruct tested, sigs as [|[m d] rest]; simpl; rewrite Hw; reflexivity.
Qed.

Lemma waitfg_from_step tested p s m d rest s' out :
  tested || waiting s p = true → handle s d = (Return s', out) →
  waitfg_from tested p s ((m, d) :: rest)
  = ((waitfg_from (match m with BeforePause => true | InPause => false end)
        p s' rest).1,
     out ++ (waitfg_from (match m with BeforePause => true | InPause => false end)
               p s' rest).2).
Proof.
  intros Hw Hd. cbn [waitfg_from]. rewrite Hw, Hd.
  destruct (waitfg_from _ p s' rest) as [r out']. reflexivity.
Qed.

Lemma waitfg_step p s d rest s' out :
  waiting s p = true → handle s d = (Return s', out) →
  waitfg p s ((InPause, d) :: rest)
  = ((waitfg p s' rest).1, out ++ (waitfg p s' rest).2).
Proof.
  intros Hw Hd. unfold waitfg.
  apply (waitfg_from_step false p s InPause d rest s' out); [|exact Hd].
  rewrite Hw. reflexivity.
Qed.

(** A signal caught after the test and before [pause()]: the handler
    runs and the shell goes into [pause()]. *)
Lemma waitfg_gap p s d rest s' out :
  waiting s p = true → handle s d = (Return s', out) →
  waitfg p s ((BeforePause, d) :: rest)
  = ((waitfg_from true p s' rest).1, out ++ (waitfg_from true p s' rest).2).
Proof.
  intros Hw Hd. unfold waitfg.
  apply (waitfg_from_step false p s BeforePause d rest s' out); [|exact Hd].
  rewrite Hw. reflexivity.
Qed.

(** When the loop returns, the test has just failed on the table that the
    handlers of the signals caught so far have left; a shell that was
    bound for [pause()] has caught at least one signal. *)
Lemma waitfg_from_returned tested p sigs :
  ∀ s t pending out,
    waitfg_from tested p s sigs = (Returned t pending, out) →
    waiting t p = false
    ∧ ∃ used, sigs = used ++ pending ∧ handle_all s used.*2 = Some t
        ∧ (tested = true → used ≠ []).
Proof.
  revert tested. induction sigs as [|[m d] rest IH]; intros tested s t pending out;
    cbn [waitfg_from].
  - destruct (tested || waiting s p) eqn:E; [discriminate|].
    apply orb_false_elim in E as [-> Hw]. intros [= <- <- _].
    split; [exact Hw|]. exists []. split; [reflexivity|].
    split; [reflexivity | discriminate].
  - destruct (tested || waiting s p) eqn:E.
    + destruct (handle s d) as [[s'|code|] out1] eqn:Hd; [|discriminate..].
      destruct (waitfg_from _ p s' rest) as [r out2] eqn:Hrec.
      intros [= -> _].
      destruct (IH _ _ _ _ _ Hrec) as (Hw & used & -> & Hall & _).
      split; [exact Hw|]. exists ((m, d) :: used).
      split; [reflexivity|]. split; [|discriminate].
      simpl. rewrite Hd. exact Hall.
    + apply orb_false_elim in E as [-> Hw]. intros [= <- <- _].
      split; [exact Hw|]. exists []. split; [reflexivity|].
      split; [reflexivity | discriminate].
Qed.

Lemma keyboard_handlers_return s sig ok :
  Forall slot_ok (jobs s) →
  (sigint_handler s sig ok).1 = Return s
  ∧ (sigtstp_handler s sig ok).1 = Return s.
Proof.
  intros Hok. unfold sigint_handler, sigtstp_handler.
  destruct (decide (fgpid (jobs s) = 0)) as [Hz|Hnz]; [split; reflexivity|].
  destruct (fgpid_found _ Hok Hnz) as [_ [[i job] Hget]].
  rewrite Hget. destruct ok; split; reflexivity.
Qed.

(** X18.  A SIGINT or a SIGTSTP caught during a wait does not end it,
    be it caught in [pause()] or between the test and [pause()]: in a
    table whose slots are cleared or hold a pid of at least 1, the
    handler runs, the table is the same, and [waitfg] goes on waiting
    under the signals that follow. *)
Theorem waitfg_outlasts_keyboard_signals (p : Z) (s : shell) (m : moment)
    (d : delivery) (rest : list arrival) :
  Forall slot_ok (jobs s) → waiting s p = true →
  (∃ sig ok, d = Sigint sig ok ∨ d = Sigtstp sig ok) →
  waitfg p s ((m, d) :: rest)
  = ((waitfg p s rest).1, (handle s d).2 ++ (waitfg p s rest).2).
Proof.
  intros Hok Hw (sig & ok & Hd).
  destruct (keyboard_handlers_return s sig ok Hok) as [Hint Htstp].
  assert (Hret : handle s d = (Return s, (handle s d).2)).
  { destruct Hd as [-> | ->]; simpl.
    - destruct (sigint_handler s sig ok) as [e out]. simpl in *. congruence.
    - destruct (sigtstp_handler s sig ok) as [e out]. simpl in *. congruence. }
  unfold waitfg at 1.
  rewrite (waitfg_from_step false p s m d rest s (handle s d).2);
    [|rewrite Hw; reflexivity | exact Hret].
  rewrite (waitfg_from_waiting _ p s rest Hw). reflexivity.
Qed.

Lemma waitfg_outlasts_keyboard_signals_witness :
  (Forall slot_ok (jobs (run only_100 [Add 7 FG "vi"]))
   ∧ waiting (run only_100 [Add 7 FG "vi"]) 7 = true)
  ∧ waitfg 7 (run only_100 [Add 7 FG "vi"]) [(BeforePause, Sigtstp 20 true)]
    = (Paused (run only_100 [Add 7 FG "vi"]), [Kill (-7) 20]).
Proof.
  assert (H1 : Forall slot_ok (jobs (run only_100 [Add 7 FG "vi"])))
    by by_evaluation.
  assert (H2 : waiting (run only_100 [Add 7 FG "vi"]) 7 = true)
    by (vm_compute; reflexivity).
  split; [split; assumption|].
  rewrite (waitfg_outlasts_keyboard_signals 7 _ BeforePause (Sigtstp 20 true)
             [] H1 H2);
    [vm_compute; reflexivity|].
  exists 20, true. right. reflexivity.
Defined.

Lemma deletejob_removes s p :
  pid_once p (jobs s) → getjobpid (jobs (deletejob s p).2) p = None.
Proof.
  intros Honce. destruct (deletejob s p) as [r s'] eqn:E. simpl.
  destruct (deletejob_ret s p) as [Hr|Hr]; rewrite E in Hr; simpl in Hr;
    subst r.
  - pose proof (deletejob_failure s p s' E). subst s'.
    unfold deletejob in E. unfold getjobpid.
    destruct (decide (p < 1)); [reflexivity|].
    destruct (find_pid p (jobs s)) as [[i job]|]; [discriminate | reflexivity].
  - apply deletejob_success in E as (Hp & i & job & Hfind & ->). simpl.
    apply find_pid_Some in Hfind as (Hi & Hjob & _).
    unfold getjobpid. destruct (decide (p < 1)); [reflexivity|].
    apply find_pid_None, Forall_lookup. intros j y Hy.
    apply list_lookup_insert_Some in Hy as [(_ & <- & _)|(Hne & Hy)].
    + simpl. lia.
    + intros Hpid. apply Hne. eapply Honce; eauto.
Qed.

(** X19.  The SIGCHLD that reports the awaited job [p] first, as exited,
    as ended by a signal or as stopped, takes [p] out of the foreground
    (its pid is in one slot only); whether the wait ends with it depends
    on where it is caught.  Caught in [pause()], [waitfg] returns right
    after that handler, with the later signals still to come.  Caught
    after the test and before [pause()], the shell goes into [pause()]
    although [p] is no longer in the foreground: with no later signal it
    stays there, and in no case does it return before it has caught one
    more signal. *)
Theorem waitfg_ends_with_the_child (p : Z) (s : shell) (status : wstatus)
    (more : list (Z * wstatus)) (rest : list arrival) :
  pid_once p (jobs s) → waiting s p = true → status ≠ Wother →
  ∃ s' out,
    handle s (Sigchld ((p, status) :: more)) = (Return s', out)
    ∧ ¬ in_fg s' p
    ∧ waitfg p s ((InPause, Sigchld ((p, status) :: more)) :: rest)
      = (Returned s' rest, out)
    ∧ waitfg p s [(BeforePause, Sigchld ((p, status) :: more))]
      = (Paused s', out)
    ∧ ∀ t pending out',
        waitfg p s ((BeforePause, Sigchld ((p, status) :: more)) :: rest)
        = (Returned t pending, out') →
        (length pending < length rest)%nat.
Proof.
  intros Honce Hw Hstatus.
  assert (Hget : ∃ i job, getjobpid (jobs s) p = Some (i, job)).
  { unfold waiting in Hw.
    destruct (getjobpid (jobs s) p) as [[i job]|]; [eauto | discriminate]. }
  destruct Hget as (i & job & Hget).
  pose proof Hget as (Hp & Hfind)%getjobpid_Some.
  assert (Hhandle : ∃ s' out,
            handle s (Sigchld ((p, status) :: more)) = (Return s', out)
            ∧ waiting s' p = false).
  { destruct status as [n|n|n|]; [| | |contradiction]; simpl.
    - eexists _, _. split; [reflexivity|]. unfold waiting.
      rewrite (deletejob_removes s p Honce). reflexivity.
    - eexists _, _. split; [reflexivity|]. unfold waiting.
      rewrite (deletejob_removes s p Honce). reflexivity.
    - rewrite Hget. eexists _, _. split; [reflexivity|].
      unfold waiting, getjobpid. destruct (decide (p < 1)); [lia|].
      simpl. rewrite (find_pid_set_state _ _ i ST _ _ Hfind).
      destruct (decide (i = i)); [|contradiction]. reflexivity. }
  destruct Hhandle as (s' & out & Hhandle & Hw').
  exists s', out. split; [exact Hhandle|]. split; [|split; [|split]].
  - apply not_waiting_not_in_fg; [exact Hp | | exact Hw'].
    eapply pid_once_handle; [lia | exact Honce | exact Hhandle].
  - rewrite (waitfg_step p s _ rest s' out Hw Hhandle).
    rewrite (waitfg_not_waiting p s' rest Hw'). simpl.
    rewrite app_nil_r. reflexivity.
  - rewrite (waitfg_gap p s _ [] s' out Hw Hhandle). simpl.
    rewrite app_nil_r. reflexivity.
  - intros t pending out'.
    rewrite (waitfg_gap p s _ rest s' out Hw Hhandle).
    destruct (waitfg_from true p s' rest) as [r out2] eqn:Hrec. simpl.
    intros [= -> _].
    destruct (waitfg_from_returned _ _ _ _ _ _ _ Hrec)
      as (_ & used & -> & _ & Hused).
    rewrite length_app. specialize (Hused eq_refl).
    destruct used; [contradiction | simpl; lia].
Qed.

Lemma waitfg_ends_with_the_child_witness :
  (pid_once 7 (jobs (run only_100 [Add 7 FG "vi"]))
   ∧ waiting (run only_100 [Add 7 FG "vi"]) 7 = true
   ∧ Wstopped 20 ≠ Wother)
  ∧ waitfg 7 (run only_100 [Add 7 FG "vi"])
      [(InPause, Sigchld [(7, Wstopped 20)]); (InPause, Sigquit)]
    = (Returned (set_state (run only_100 [Add 7 FG "vi"]) 1 ST)
         [(InPause, Sigquit)],
       [Stdout ("Job [2] (7) stopped by signal 20" +:+ nl)])
  ∧ waitfg 7 (run only_100 [Add 7 FG "vi"])
      [(BeforePause, Sigchld [(7, Wstopped 20)])]
    = (Paused (set_state (run only_100 [Add 7 FG "vi"]) 1 ST),
       [Stdout ("Job [2] (7) stopped by signal 20" +:+ nl)]).
Proof.
  assert (H1 : pid_once 7 (jobs (run only_100 [Add 7 FG "vi"])))
    by (apply (at_most_one_filter (λ job, pid job = 7)); vm_compute; lia).
  assert (H2 : waiting (run only_100 [Add 7 FG "vi"]) 7 = true)
    by (vm_compute; reflexivity).
  assert (H3 : Wstopped 20 ≠ Wother) by discriminate.
  split; [repeat split; assumption|].
  destruct (waitfg_ends_with_the_child 7 _ (Wstopped 20) []
              [(InPause, Sigquit)] H1 H2 H3)
    as (s' & out & Hhandle & _ & Hwait & Hgap & _).
  rewrite Hwait, Hgap. vm_compute in Hhandle. injection Hhandle as <- <-.
  split; vm_compute; reflexivity.
Defined.

(** ** The wait and the foreground state *)

Lemma in_fg_waiting s p :
  1 ≤ p → pid_once p (jobs s) → in_fg s p → waiting s p = true.
Proof.
  intros Hp Honce Hin. destruct (waiting s p) eqn:E; [reflexivity|].
  exfalso. exact (not_waiting_not_in_fg s p Hp Honce E Hin).
Qed.

(** As long as every signal is caught in [pause()], the wait ends with
    the first handler after which the job is not in the foreground. *)
Lemma waitfg_in_pause p used :
  1 ≤ p → ∀ s s' rest, pid_once p (jobs s) →
  Forall (λ a : arrival, a.1 = InPause) used →
  fg_during p s used.*2 →
  handle_all s used.*2 = Some s' → ¬ in_fg s' p →
  (waitfg p s (used ++ rest)).1 = Returned s' rest.
Proof.
  intros Hp. induction used as [|[m d] used IH];
    intros s s' rest Honce Hm Hfg Hall Hout.
  - simpl in Hall. injection Hall as <-. simpl.
    rewrite waitfg_not_waiting; [reflexivity|].
    destruct (waiting s p) eqn:E; [|reflexivity].
    exfalso. apply Hout, waiting_in_fg, E.
  - apply Forall_cons in Hm as [Hm1 Hm]. simpl in Hm1. subst m.
    rewrite fmap_cons in Hfg, Hall. simpl in Hfg, Hall.
    assert (Hw : waiting s p = true).
    { apply in_fg_waiting; [exact Hp | exact Honce|].
      apply (Hfg 0%nat s); [simpl; lia | reflexivity]. }
    destruct (handle s d) as [[s1|c|] out] eqn:Hd; [|discriminate..].
    change (((InPause, d) :: used) ++ rest)
      with ((InPause, d) :: (used ++ rest)).
    rewrite (waitfg_step p s d _ s1 out Hw Hd). simpl.
    apply IH; [|exact Hm | | exact Hall | exact Hout].
    + eapply pid_once_handle; [lia | exact Honce | exact Hd].
    + intros k t Hk Ht. apply (Hfg (S k) t); [simpl; lia|].
      simpl. rewrite Hd. exact Ht.
Qed.

(** X29.  What [waitfg] does is tied to the table, for a pid [p] of at
    least 1 that is in one slot only.  Under every order and timing of
    the signals, when [waitfg] returns no job of the pid [p] is in the
    foreground state, and the table is the one left by the handlers of
    the signals caught till then.  And when every signal is caught in
    [pause()], [waitfg] returns as soon as that is so: if a job of the
    pid [p] is in the foreground before each of the signals [used] and
    none is after the last of them, [waitfg] returns after exactly these
    signals, the others still to come. *)
Theorem waitfg_returns_when_the_job_leaves (p : Z) (s : shell) :
  1 ≤ p → pid_once p (jobs s) →
  (∀ sigs t pending out,
      waitfg p s sigs = (Returned t pending, out) →
      ¬ in_fg t p
      ∧ ∃ used, sigs = used ++ pending ∧ handle_all s used.*2 = Some t)
  ∧ (∀ used rest s',
      Forall (λ a : arrival, a.1 = InPause) used →
      fg_during p s used.*2 →
      handle_all s used.*2 = Some s' → ¬ in_fg s' p →
      (waitfg p s (used ++ rest)).1 = Returned s' rest).
Proof.
  intros Hp Honce. split.
  - intros sigs t pending out Hret.
    destruct (waitfg_from_returned _ _ _ _ _ _ _ Hret)
      as (Hw & used & -> & Hall & _).
    split; [|exists used; split; [reflexivity | exact Hall]].
    apply not_waiting_not_in_fg; [exact Hp | | exact Hw].
    eapply pid_once_handle_all; [lia | exact Honce | exact Hall].
  - intros used rest s'. apply waitfg_in_pause; assumption.
Qed.

Lemma waitfg_returns_when_the_job_leaves_witness :
  (1 ≤ 7 ∧ pid_once 7 (jobs (run only_100 [Add 7 FG "vi"])))
  ∧ (waitfg 7 (run only_100 [Add 7 FG "vi"])
       ([(InPause, Sigtstp 20 true); (InPause, Sigchld [(7, Wstopped 20)])]
        ++ [(InPause, Sigquit)])).1
    = Returned (set_state (run only_100 [Add 7 FG "vi"]) 1 ST)
        [(InPause, Sigquit)].
Proof.
  assert (H1 : 1 ≤ 7) by discriminate.
  assert (H2 : pid_once 7 (jobs (run only_100 [Add 7 FG "vi"])))
    by (apply (at_most_one_filter (λ job, pid job = 7)); vm_compute; lia).
  split; [split; assumption|].
  apply (proj2 (waitfg_returns_when_the_job_leaves 7 _ H1 H2)).
  - repeat constructor.
  - intros k t Hk. simpl in Hk.
    destruct k as [|[|k]]; [| |lia]; vm_compute; intros [= <-];
      apply (bool_decide_unpack _); vm_compute; exact I.
  - vm_compute. reflexivity.
  - by_evaluation.
Defined.

(** ** Resuming a job that is named *)





(** ** An id that names no job *)

(** X30.  An id within the range of an [int] that names no job is
    answered as such.  For the number [n], written as [printf] writes it
    and given as a pid, or after [%] as a job id, when [n] is below 1 or
    no slot of the table holds it (as pid, respectively as job id),
    [do_bgfg] prints [(n): No such process], respectively
    [%n: No such job], on stderr and returns with every signal still to
    come: no signal is sent and the table is as before. *)
Theorem do_bgfg_no_such_job (cmd : string) (n : Z) (by_jid : bool)
    (s : shell) (sigs : list arrival) :
  - 2 ^ 31 ≤ n < 2 ^ 31 →
  n < 1
  ∨ Forall (λ job, (if by_jid then jid job else pid job) ≠ n) (jobs s) →
  do_bgfg [cmd; (if by_jid then "%" else "") +:+ dec n] s sigs
  = (Returned s sigs,
     [Stderr (if by_jid then "%" +:+ dec n +:+ ": No such job" +:+ nl
              else "(" +:+ dec n +:+ "): No such process" +:+ nl)]).
Proof.
  intros Hn Hnone.
  assert (Hsplit : split_id ((if by_jid then "%" else "") +:+ dec n)
                   = (by_jid, dec n)).
  { destruct by_jid.
    - change ("%" +:+ dec n) with (String "%"%char (dec n)). reflexivity.
    - change ("" +:+ dec n) with (dec n). apply split_id_dec_any. }
  assert (Hnum : strtol (dec n) = (n, EmptyString)).
  { apply strtol_dec_any. unfold LONG_MIN, LONG_MAX. lia. }
  assert (Hlook : lookup_job (jobs s) by_jid n = None).
  { destruct by_jid; simpl.
    - unfold getjobjid. destruct (decide (n < 1)); [reflexivity|].
      destruct Hnone as [|Hnone]; [lia|].
      unfold find_jid. apply list_find_None. exact Hnone.
    - unfold getjobpid. destruct (decide (n < 1)); [reflexivity|].
      destruct Hnone as [|Hnone]; [lia|].
      apply find_pid_None. exact Hnone. }
  unfold do_bgfg. rewrite Hsplit, Hnum.
  destruct (decide (EmptyString ≠ EmptyString)); [contradiction|].
  rewrite int_of_long_small by exact Hn. rewrite Hlook.
  unfold no_such. destruct by_jid; reflexivity.
Qed.

Lemma do_bgfg_no_such_job_witness :
  (- 2 ^ 31 ≤ 7 < 2 ^ 31 ∧ Forall (λ job, jid job ≠ 7) (jobs one_stopped))
  ∧ do_bgfg ["fg"; "%7"] one_stopped reaped_100
    = (Returned one_stopped reaped_100, [Stderr ("%7: No such job" +:+ nl)]).
Proof.
  assert (H1 : - 2 ^ 31 ≤ 7 < 2 ^ 31) by (split; [discriminate | reflexivity]).
  assert (H2 : Forall (λ job, jid job ≠ 7) (jobs one_stopped)) by by_evaluation.
  split; [split; assumption|].
  exact (do_bgfg_no_such_job "fg" 7 true one_stopped reaped_100 H1
           (or_intror H2)).
Defined.

(** ** Evaluating a command line *)

(** X21.  A blank line makes the shell read through NULL: [parseline]
    leaves [argv[0]] NULL and [eval] passes it to [builtin_cmd], whose
    first [strcmp] reads it.  Nothing is printed, no process is made and
    the table is not touched before the fault. *)
Theorem eval_blank_line_faults (n : nat) (c : ascii) (argc fork : Z)
    (exec_ok : bool) (s : shell) (sigs : list arrival) :
  Z.of_nat n + 1 < MAXLINE →
  eval (blanks n +:+ String c EmptyString) argc fork exec_ok s sigs
  = (Done Faulted, []).
Proof.
  intros Hn. unfold eval. rewrite (parseline_of_blanks n c argc Hn).
  reflexivity.
Qed.

Lemma eval_blank_line_faults_witness :
  Z.of_nat 0 + 1 < MAXLINE ∧ eval nl 0 100 true boot [] = (Done Faulted, []).
Proof.
  split; [reflexivity|]. apply (eval_blank_line_faults 0 LF). reflexivity.
Defined.

Lemma addjob_into_free_slot s p st cmd :
  1 ≤ p → ¬ full (jobs s) →
  ∃ i e, find_pid 0 (jobs s) = Some (i, e)
    ∧ addjob s p st cmd
      = (1, {| jobs := <[i := Job p (nextjid s) st cmd]> (jobs s);
               nextjid := if decide (nextjid s + 1 > MAXJOBS) then 1
                          else nextjid s + 1 |}, []).
Proof.
  intros Hp Hfull.
  destruct (find_pid 0 (jobs s)) as [[i e]|] eqn:E.
  - exists i, e. split; [reflexivity|]. apply addjob_success.
    split; [exact Hp|]. split; [reflexivity|]. eauto.
  - apply find_pid_full in E. contradiction.
Qed.



(** Whether a command is a builtin does not depend on the signals to
    come. *)
Lemma builtin_cmd_not_builtin argv s sigs sigs' :
  builtin_cmd argv s sigs = None → builtin_cmd argv s sigs' = None.
Proof.
  unfold builtin_cmd. destruct argv as [|cmd args]; [discriminate|].
  destruct (decide (cmd = "quit")); [discriminate|].
  destruct (decide (cmd = "jobs")); [discriminate|].
  destruct (decide (cmd = "bg" ∨ cmd = "fg")); [discriminate|].
  reflexivity.
Qed.

(** X23.  A command that is no builtin and was asked for in the
    foreground, run to its end, leaves the table as it found it: when the
    child pid is at least 1 and in no slot, the table has an empty slot
    and its empty slots are cleared, and the first signal is the SIGCHLD
    that reports the child as exited or ended by a signal, caught in
    [pause()], [eval] returns after that signal with every slot as before
    and [nextjid] at the largest job id plus one, having printed nothing.
    When that signal is caught after the test of [waitfg] and before
    [pause()] and no signal follows, the table is the same but [eval]
    does not return: the shell stays in [pause()]. *)
Theorem eval_foreground_job_reaped (cmdline : string) (argc fork : Z)
    (exec_ok : bool) (s : shell) (line : parsed) (status : wstatus)
    (more : list (Z * wstatus)) (rest : list arrival) :
  parseline cmdline argc = Some line →
  builtin_cmd (argv_out line) s
    ((InPause, Sigchld ((fork, status) :: more)) :: rest) = None →
  bg_flag line = 0 →
  1 ≤ fork → ¬ full (jobs s) → ¬ has_pid fork (jobs s) →
  Forall slot_ok (jobs s) →
  (∃ n, status = Wexited n ∨ status = Wsignaled n) →
  eval cmdline argc fork exec_ok s
    ((InPause, Sigchld ((fork, status) :: more)) :: rest)
  = (Done (Returned {| jobs := jobs s; nextjid := maxjid (jobs s) + 1 |} rest),
     [])
  ∧ eval cmdline argc fork exec_ok s
      [(BeforePause, Sigchld ((fork, status) :: more))]
    = (Done (Paused {| jobs := jobs s; nextjid := maxjid (jobs s) + 1 |}), []).
Proof.
  intros Hline Hnot Hbg Hfork Hfull Hnone Hok Hstatus.
  destruct (addjob_into_free_slot s fork FG cmdline Hfork Hfull)
    as (i & e & Hfree & Hadd).
  set (s' := {| jobs := <[i := Job fork (nextjid s) FG cmdline]> (jobs s);
                nextjid := if decide (nextjid s + 1 > MAXJOBS) then 1
                           else nextjid s + 1 |}) in *.
  set (s0 := {| jobs := jobs s; nextjid := maxjid (jobs s) + 1 |}).
  pose proof Hfree as (Hi & _)%find_pid_Some. apply lookup_lt_Some in Hi.
  assert (Hdel : deletejob s' fork = (1, s0))
    by exact (deletejob_undoes_addjob s fork FG cmdline s' [] Hok Hnone Hadd).
  assert (Hw : waiting s' fork = true).
  { unfold waiting, getjobpid. destruct (decide (fork < 1)); [lia|].
    unfold s'. simpl.
    rewrite (find_pid_insert_new fork (jobs s) i
               (Job fork (nextjid s) FG cmdline) Hi eq_refl Hnone).
    reflexivity. }
  assert (Hhandle : handle s' (Sigchld ((fork, status) :: more))
                    = (Return s0, [])).
  { destruct Hstatus as (n & [-> | ->]); simpl; rewrite Hdel; reflexivity. }
  assert (Hw0 : waiting s0 fork = false).
  { unfold waiting, getjobpid. destruct (decide (fork < 1)); [lia|].
    assert (find_pid fork (jobs s0) = None) as ->; [|reflexivity].
    apply find_pid_None. apply Forall_forall. intros job Hin Hpid.
    apply Hnone, Exists_exists. eauto. }
  split.
  - unfold eval. rewrite Hline, Hnot.
    destruct (decide (fork = -1)); [lia|].
    destruct (decide (fork = 0)); [lia|].
    destruct (decide (bg_flag line ≠ 0)); [contradiction|].
    rewrite Hadd. destruct (decide (1 = 0)); [discriminate|].
    rewrite (waitfg_step fork s' _ rest s0 [] Hw Hhandle).
    rewrite (waitfg_not_waiting fork s0 rest Hw0). reflexivity.
  - unfold eval.
    rewrite Hline, (builtin_cmd_not_builtin _ _ _ _ Hnot).
    destruct (decide (fork = -1)); [lia|].
    destruct (decide (fork = 0)); [lia|].
    destruct (decide (bg_flag line ≠ 0)); [contradiction|].
    rewrite Hadd. destruct (decide (1 = 0)); [discriminate|].
    rewrite (waitfg_gap fork s' _ [] s0 [] Hw Hhandle). reflexivity.
Qed.

Lemma eval_foreground_job_reaped_witness :
  eval ("/bin/ls -l" +:+ nl) 0 7 true only_100
    [(InPause, Sigchld [(7, Wexited 0)]); (InPause, Sigquit)]
  = (Done (Returned {| jobs := jobs only_100;
                       nextjid := maxjid (jobs only_100) + 1 |}
             [(InPause, Sigquit)]),
     [])
  ∧ eval ("/bin/ls -l" +:+ nl) 0 7 true only_100
      [(BeforePause, Sigchld [(7, Wexited 0)])]
    = (Done (Paused {| jobs := jobs only_100;
                       nextjid := maxjid (jobs only_100) + 1 |}), []).
Proof.
  apply (eval_foreground_job_reaped ("/bin/ls -l" +:+ nl) 0 7 true only_100
           {| bg_flag := 0; argc_out := 2; argv_out := ["/bin/ls"; "-l"] |}).
  - vm_compute. reflexivity.
  - vm_compute. reflexivity.
  - reflexivity.
  - discriminate.
  - by_evaluation.
  - by_evaluation.
  - by_evaluation.
  - exists 0. left. reflexivity.
Defined.

(** X24.  What [eval] cannot start or cannot record it reports, and the
    table is as before.  For a command that is no builtin: when [fork]
    fails, one line on stderr; when the child exists but no slot is
    empty, the line of [addjob] and the line of [eval] on stderr, and
    [eval] returns at once, also for a foreground command, with the child
    in no slot. *)
Theorem eval_reports_failures (cmdline : string) (argc fork : Z)
    (exec_ok : bool) (s : shell) (sigs : list arrival) (line : parsed) :
  parseline cmdline argc = Some line →
  builtin_cmd (argv_out line) s sigs = None →
  (fork = -1 →
   eval cmdline argc fork exec_ok s sigs
   = (Done (Returned s sigs),
      [Stderr ("Unable to fork child process for: " +:+ cmdline)]))
  ∧ (1 ≤ fork → full (jobs s) →
     eval cmdline argc fork exec_ok s sigs
     = (Done (Returned s sigs),
        [Stderr ("Tried to create too many jobs" +:+ nl);
         Stderr ("Failed to create job for " +:+ cmdline)])).
Proof.
  intros Hline Hnot. split.
  - intros ->. unfold eval. rewrite Hline, Hnot. reflexivity.
  - intros Hfork Hfull. unfold eval. rewrite Hline, Hnot.
    destruct (decide (fork = -1)); [lia|].
    destruct (decide (fork = 0)); [lia|].
    unfold addjob. destruct (decide (fork < 1)); [lia|].
    apply find_pid_full in Hfull. rewrite Hfull. reflexivity.
Qed.

Lemma eval_reports_failures_witness :
  eval ("/bin/ls" +:+ nl) 0 17 true (run boot sixteen_adds) []
  = (Done (Returned (run boot sixteen_adds) []),
     [Stderr ("Tried to create too many jobs" +:+ nl);
      Stderr ("Failed to create job for /bin/ls" +:+ nl)]).
Proof.
  destruct (eval_reports_failures ("/bin/ls" +:+ nl) 0 17 true
              (run boot sixteen_adds) []
              {| bg_flag := 0; argc_out := 1; argv_out := ["/bin/ls"] |})
    as [_ H]; [vm_compute; reflexivity..|].
  apply H; [lia | by_evaluation].
Defined.

(** X25.  The child never goes on as a shell.  In the process where
    [fork] returned 0, for a command that is no builtin, [eval] ends
    either with the program in place of the shell, or, when [execv] does
    not find it, with [<program>: Command not found] on stdout and
    [exit(1)]; the table of the child is not what ends up being used. *)
Theorem eval_child_never_returns (cmdline : string) (argc : Z)
    (exec_ok : bool) (s : shell) (sigs : list arrival) (line : parsed) :
  parseline cmdline argc = Some line →
  builtin_cmd (argv_out line) s sigs = None →
  ∃ prog args, argv_out line = prog :: args
    ∧ eval cmdline argc 0 exec_ok s sigs
      = if exec_ok then (Image (prog :: args), [])
        else (Done (Exited 1),
              [Stdout (prog +:+ ": Command not found" +:+ nl)]).
Proof.
  intros Hline Hnot. unfold eval. rewrite Hline, Hnot.
  destruct (argv_out line) as [|prog args] eqn:E; [discriminate|].
  exists prog, args. split; [reflexivity|].
  destruct (decide (0 = -1)); [discriminate|].
  destruct (decide (0 = 0)); [|contradiction].
  destruct exec_ok; reflexivity.
Qed.

Lemma eval_child_never_returns_witness :
  eval ("/bin/nothing -x" +:+ nl) 0 0 false boot []
  = (Done (Exited 1), [Stdout ("/bin/nothing: Command not found" +:+ nl)]).
Proof.
  destruct (eval_child_never_returns ("/bin/nothing -x" +:+ nl) 0 false boot []
              {| bg_flag := 0; argc_out := 2;
                 argv_out := ["/bin/nothing"; "-x"] |})
    as (prog & args & Hargv & Heval); [vm_compute; reflexivity..|].
  injection Hargv as <- <-. exact Heval.
Defined.

(** ** The listing of the jobs *)

Lemma listjobs_from_app i l1 l2 :
  listjobs_from i (l1 ++ l2)
  = listjobs_from i l1 ++ listjobs_from (i + length l1) l2.
Proof.
  revert i. induction l1 as [|job l1 IH]; intros i; simpl.
  - rewrite Nat.add_0_r. reflexivity.
  - rewrite IH, <- app_assoc.
    replace (i + S (length l1))%nat with (S i + length l1)%nat by lia.
    reflexivity.
Qed.

Lemma listjobs_from_length i l :
  (length (listjobs_from i l) + 3 * free_slots l = 3 * length l)%nat.
Proof.
  revert i. induction l as [|job l IH]; intros i; [reflexivity|].
  cbn [listjobs_from]. rewrite length_app. unfold free_slots in *.
  rewrite filter_cons. specialize (IH (S i)). unfold list_slot.
  destruct (decide (pid job = 0)); destruct (decide (pid job ≠ 0));
    try contradiction; cbn [length]; lia.
Qed.

(** X26.  [listjobs] makes three calls of [printf] for each slot that
    holds a job and none for an empty slot: it prints nothing exactly
    when every slot is empty. *)
Theorem listjobs_one_entry_per_job (jobs : list job_t) :
  (length (listjobs jobs) + 3 * free_slots jobs = 3 * length jobs)%nat
  ∧ (listjobs jobs = [] ↔ Forall (λ job, pid job = 0) jobs).
Proof.
  split; [apply listjobs_from_length|].
  unfold listjobs. generalize 0%nat.
  induction jobs as [|job l IH]; intros i; simpl.
  - split; [constructor | reflexivity].
  - rewrite Forall_cons, <- (IH (S i)). unfold list_slot.
    destruct (decide (pid job ≠ 0)) as [Hne|He]; simpl.
    + split; [discriminate | intros [? _]; contradiction].
    + split; [intros H; split; [lia | exact H] | intros [_ H]; exact H].
Qed.

(** X27.  A job that [addjob] has inserted in the state BG, FG or ST is
    listed where its slot is: the listing of the new table is that of the
    old one with the entry of the new job, its job id, its pid, the
    word [Running], [Foreground] or [Stopped] and its command line, put
    in after the entries of the slots before the first empty one. *)
Theorem listjobs_after_addjob (s : shell) (p st : Z) (cmd : string)
    (s' : shell) (out : list event) :
  addjob s p st cmd = (1, s', out) → st = BG ∨ st = FG ∨ st = ST →
  ∃ i e, find_pid 0 (jobs s) = Some (i, e)
    ∧ listjobs (jobs s)
      = listjobs (take i (jobs s))
        ++ listjobs_from (S i) (drop (S i) (jobs s))
    ∧ listjobs (jobs s')
      = listjobs (take i (jobs s))
        ++ [Stdout ("[" +:+ dec (nextjid s) +:+ "] (" +:+ dec p +:+ ") ");
            Stdout (if decide (st = BG) then "Running "
                    else if decide (st = FG) then "Foreground "
                    else "Stopped ");
            Stdout cmd]
        ++ listjobs_from (S i) (drop (S i) (jobs s)).
Proof.
  intros (Hp & _ & i & e & Hfree & ->)%addjob_success Hst.
  pose proof Hfree as (Hi & He & _)%find_pid_Some.
  assert (Hlt : (i < length (jobs s))%nat) by (eapply lookup_lt_Some; eauto).
  assert (Hlen : length (take i (jobs s)) = i) by (rewrite length_take; lia).
  exists i, e. split; [exact Hfree|]. unfold listjobs. split.
  - rewrite <- (take_drop_middle (jobs s) i e Hi) at 1.
    rewrite listjobs_from_app, Hlen. simpl. f_equal. unfold list_slot.
    destruct (decide (pid e ≠ 0)); [contradiction | reflexivity].
  - simpl. rewrite insert_take_drop by exact Hlt.
    rewrite listjobs_from_app, Hlen. simpl. f_equal. unfold list_slot. simpl.
    destruct (decide (p ≠ 0)); [|lia]. unfold state_label.
    destruct (decide (st = BG)); [reflexivity|].
    destruct (decide (st = FG)); [reflexivity|].
    destruct (decide (st = ST)); [reflexivity|].
    exfalso. tauto.
Qed.

Lemma listjobs_after_addjob_witness :
  addjob boot 100 BG ("sleep 5 &" +:+ nl) = (1, only_100, [])
  ∧ listjobs (jobs only_100)
    = [Stdout "[1] (100) "; Stdout "Running "; Stdout ("sleep 5 &" +:+ nl)].
Proof.
  assert (H : addjob boot 100 BG ("sleep 5 &" +:+ nl) = (1, only_100, []))
    by (vm_compute; reflexivity).
  split; [exact H|].
  destruct (listjobs_after_addjob boot 100 BG _ _ _ H (or_introl eq_refl))
    as (i & e & Hfree & _ & Hlist).
  rewrite Hlist. vm_compute in Hfree. injection Hfree as <- <-.
  vm_compute. reflexivity.
Defined.
